(** * Laundromat acquisition engine: a shallow embedding of [app.py]

    The scoring and ranking pipeline of [app.py] (geocode lookup, keyword
    extraction, weighted score, cap rate, sort, dashboard filters) written as
    Rocq functions, followed by the properties the specification states about
    it.

    Conventions of the embedding.
    - A Python [float] is an IEEE 754 binary64 number: Rocq's primitive
      [float], with the same operations and the same rounding.  The Python
      [int] constants of the program (0, the weights, the slider value) only
      ever meet floats or stay below 2^53, where binary64 is exact, so they
      are written as floats; the columns of the DataFrame are float64 anyway.
    - A Python [str] is a [string] of 8-bit characters; [str.lower] and the
      digits of [float()] are modelled on ASCII.
    - A listing is a record with the seven keys every entry of the input must
      have (see the NOTE above [MOCK_SCRAPED_DATA]); the merged dictionary
      [{**listing, **geo_data, **nlp_data}] is the record of its three parts.
    - An exception is a [Raise] result; [try ... except ValueError] catches
      that exception only. *)

From Stdlib Require Import ZArith List String Ascii Bool Floats Lia.
From Stdlib Require Import Permutation Sorted.
Import ListNotations.

Set Warnings "-inexact-float".

Local Open Scope string_scope.
Local Open Scope float_scope.

(** ** Exceptions *)

Inductive exn : Set :=
| TypeError
| ValueError
| ZeroDivisionError
| KeyError.

Inductive result (A : Type) : Type :=
| Ok (a : A)
| Raise (e : exn).

Arguments Ok {A} a.
Arguments Raise {A} e.

Definition bind {A B : Type} (r : result A) (k : A -> result B) : result B :=
  match r with
  | Ok a => k a
  | Raise e => Raise e
  end.

Notation "x <- r ;; k" := (bind r (fun x => k))
  (at level 61, r at next level, right associativity).

(** [try: body except ValueError: handler]. *)
Definition try_except_ValueError {A : Type} (body handler : result A) : result A :=
  match body with
  | Raise ValueError => handler
  | other => other
  end.

(** The values the program passes as call arguments. *)
Inductive pyval : Set :=
| PyStr (s : string)
| PyFloat (f : float).

(** ** Configuration *)

Definition TARGET_NEIGHBORHOODS : list string :=
  ["Logan Square"; "Avondale"; "Hermosa"].

Module WEIGHTS.
Definition RealEstateIncluded : float := 40.
Definition LocationMatch : float := 30.
Definition SellerMotivation : float := 20.
Definition HighCapacity : float := 10.
End WEIGHTS.

(** ** Data model *)

Record RawListing : Set := {
  Title : string;
  Location : string;
  Price : string;
  CashFlow : string;
  Description : string;
  Lat : float;
  Long : float
}.

(** [geo_data], the dictionary [automated_geocoding] returns. *)
Record ClassificationResult : Set := {
  Neighborhood : string;
  MatchScore : float
}.

(** [nlp_data], the dictionary [automated_nlp_analysis] returns. *)
Record FeatureSignals : Set := {
  RealEstateIncluded : bool;
  SellerMotivation : bool;
  OldEquipment : bool;
  HighCapacity : bool
}.

(** [{**listing, **geo_data, **nlp_data}]: the three key sets are disjoint. *)
Record MergedListing : Set := {
  listing_of : RawListing;
  geo_of : ClassificationResult;
  nlp_of : FeatureSignals
}.

(** [processed_listing] once ['OpportunityScore'] and ['CapRate (%)'] are set. *)
Record ScoredListing : Set := {
  merged_of : MergedListing;
  OpportunityScore : float;
  CapRate : float
}.

Definition MOCK_SCRAPED_DATA : list RawListing := [
  {| Title := "Profitable Laundromat, Owner Retiring";
     Location := "2800 N. Milwaukee Ave, Chicago, IL";
     Price := "$750,000"; CashFlow := "$150,000";
     Description := "High volume store with old equipment. Real estate included. Owner retiring after 35 years. Great for a new concept build-out. 3,000 sq ft.";
     Lat := 41.933; Long := -87.712 |};
  {| Title := "Coin Laundry Business Only - Great Lease";
     Location := "3500 W. Fullerton Ave, Chicago, IL";
     Price := "$200,000"; CashFlow := "$80,000";
     Description := "Lease only. High traffic area near Avondale border. Equipment is 10 years old. No real estate. Absentee owner needs quick sale.";
     Lat := 41.924; Long := -87.724 |};
  {| Title := "Modern Washateria near Cicero";
     Location := "5000 W. North Ave, Chicago, IL";
     Price := "$900,000"; CashFlow := "$180,000";
     Description := "Fully updated store with high-capacity washers. Seller moving out of state. No real estate. Good cash flow.";
     Lat := 41.910; Long := -87.749 |};
  {| Title := "Established Laundry in Logan Square";
     Location := "2500 N. Central Park Ave, Chicago, IL";
     Price := "$450,000"; CashFlow := "$100,000";
     Description := "Solid neighborhood business. Real estate included. Older machines, but reliable. Strong local customer base.";
     Lat := 41.921; Long := -87.715 |};
  {| Title := "Wash & Fold Opportunity in North Suburb";
     Location := "Evanston, IL";
     Price := "$300,000"; CashFlow := "$60,000";
     Description := "Small store focused on wash and fold. Not in target area. Real estate not included.";
     Lat := 42.045; Long := -87.687 |};
  {| Title := "Prime Hermosa Corner Lot Laundromat";
     Location := "4000 W. Diversey Ave, Chicago, IL";
     Price := "$1,200,000"; CashFlow := "$200,000";
     Description := "Massive potential. Real estate included. Owner needs quick exit due to health. Older, inefficient machines. Perfect for new concept.";
     Lat := 41.932; Long := -87.730 |}
].

(** ** Python built-ins the program uses *)

(** *** Strings *)

Definition lower_ascii (c : ascii) : ascii :=
  let n := nat_of_ascii c in
  if (65 <=? n)%nat && (n <=? 90)%nat then ascii_of_nat (n + 32) else c.

(** [s.lower()]. *)
Fixpoint str_lower (s : string) : string :=
  match s with
  | EmptyString => EmptyString
  | String c s' => String (lower_ascii c) (str_lower s')
  end.

(** [s.replace(c, '')] for a one-character [c]. *)
Fixpoint str_remove (c : ascii) (s : string) : string :=
  match s with
  | EmptyString => EmptyString
  | String a s' => if Ascii.eqb a c then str_remove c s' else String a (str_remove c s')
  end.

(** [p in s]: [p] occurs in [s] as a contiguous run of characters. *)
Fixpoint contains (p s : string) : bool :=
  String.prefix p s ||
  match s with
  | EmptyString => false
  | String _ s' => contains p s'
  end.

(** [bool(re.search(p1|p2|..., text))] for phrases [p1, p2, ...] made of
    letters, spaces and hyphens, which the pattern language reads
    literally: the text matches iff one of the phrases occurs in it. *)
Definition re_search (alternatives : list string) (text : string) : bool :=
  existsb (fun p => contains p text) alternatives.

(** [x in xs] for a list of strings. *)
Definition str_in (x : string) (xs : list string) : bool :=
  existsb (String.eqb x) xs.

(** *** Numbers *)

(** The binary64 number nearest to [n / d] (ties to even), with sign [neg]:
    the quotient is computed exactly and rounded once, as a correctly
    rounded decimal-to-binary conversion does. *)
Definition float_of_ratio (neg : bool) (n d : positive) : float :=
  let '(q, e, l) := SFdiv_core_binary prec emax (Zpos n) 0 (Zpos d) 0 in
  SF2Prim (binary_round_aux prec emax neg q e l).

Definition float_zero (neg : bool) : float := if neg then -0 else 0.

(** [neg] applied to [digits * 10 ^ e10], for [digits >= 0]. *)
Definition decimal_value (neg : bool) (digits e10 : Z) : float :=
  match digits with
  | Zpos p =>
      if (0 <=? e10)%Z
      then float_of_ratio neg (p * Z.to_pos (10 ^ e10)) 1
      else float_of_ratio neg p (Z.to_pos (10 ^ (- e10)))
  | _ => float_zero neg
  end.

Definition is_space (c : ascii) : bool :=
  let n := nat_of_ascii c in
  (n =? 32)%nat || ((9 <=? n)%nat && (n <=? 13)%nat) || ((28 <=? n)%nat && (n <=? 31)%nat).

Definition digit_of (c : ascii) : option Z :=
  let n := nat_of_ascii c in
  if (48 <=? n)%nat && (n <=? 57)%nat then Some (Z.of_nat (n - 48)) else None.

Fixpoint lstrip (s : string) : string :=
  match s with
  | String c s' => if is_space c then lstrip s' else s
  | EmptyString => s
  end.

Fixpoint rstrip (s : string) : string :=
  match s with
  | String c s' =>
      match rstrip s' with
      | EmptyString => if is_space c then EmptyString else String c EmptyString
      | t => String c t
      end
  | EmptyString => s
  end.

(** The rest of a digit run, [("_"? digit)*], after its first digit: the
    number read so far, how many digits it has, and what follows the run. *)
Fixpoint digits_tail (acc : Z) (cnt : Z) (s : string) : Z * Z * string :=
  match s with
  | String c s' =>
      match digit_of c with
      | Some d => digits_tail (10 * acc + d) (cnt + 1) s'
      | None =>
          if Ascii.eqb c "_" then
            match s' with
            | String c2 s'' =>
                match digit_of c2 with
                | Some d => digits_tail (10 * acc + d) (cnt + 1) s''
                | None => (acc, cnt, s)
                end
            | EmptyString => (acc, cnt, s)
            end
          else (acc, cnt, s)
      end
  | EmptyString => (acc, cnt, s)
  end.

(** A digit run [digit ("_"? digit)*] continuing the number [acc]. *)
Definition digitpart (acc : Z) (s : string) : option (Z * Z * string) :=
  match s with
  | String c s' =>
      match digit_of c with
      | Some d => Some (digits_tail (10 * acc + d) 1 s')
      | None => None
      end
  | EmptyString => None
  end.

(** An optional sign. *)
Definition read_sign (s : string) : bool * string :=
  match s with
  | String "-" s' => (true, s')
  | String "+" s' => (false, s')
  | _ => (false, s)
  end.

(** The optional exponent [("e" | "E") sign? digitpart] and the end of the
    text. *)
Definition read_exponent (s : string) : option Z :=
  match s with
  | EmptyString => Some 0%Z
  | String c s' =>
      if Ascii.eqb c "e" || Ascii.eqb c "E" then
        let '(neg, s'') := read_sign s' in
        match digitpart 0 s'' with
        | Some (e, _, EmptyString) => Some (if neg then (- e)%Z else e)
        | _ => None
        end
      else None
  end.

(** The decimal forms [digitpart "."? digitpart? exponent?] and
    ["." digitpart exponent?]: the digits read as one integer and the power
    of ten it is scaled by. *)
Definition read_decimal (s : string) : option (Z * Z) :=
  match digitpart 0 s with
  | Some (i, _, String "." s') =>
      match digitpart i s' with
      | Some (m, k, s'') =>
          match read_exponent s'' with
          | Some e => Some (m, (e - k)%Z)
          | None => None
          end
      | None =>
          match read_exponent s' with
          | Some e => Some (i, e)
          | None => None
          end
      end
  | Some (i, _, s') =>
      match read_exponent s' with
      | Some e => Some (i, e)
      | None => None
      end
  | None =>
      match s with
      | String "." s' =>
          match digitpart 0 s' with
          | Some (m, k, s'') =>
              match read_exponent s'' with
              | Some e => Some (m, (e - k)%Z)
              | None => None
              end
          | None => None
          end
      | _ => None
      end
  end.

(** [float(s)] for a string [s]: surrounding white space is dropped, then an
    optional sign and either a decimal number or one of [inf], [infinity],
    [nan] in any letter case; anything else raises [ValueError]. *)
Definition py_float (s : string) : result float :=
  let '(neg, body) := read_sign (rstrip (lstrip s)) in
  let word := str_lower body in
  if String.eqb word "inf" || String.eqb word "infinity"
  then Ok (if neg then neg_infinity else infinity)
  else if String.eqb word "nan" then Ok nan
  else
    match read_decimal body with
    | Some (m, e10) => Ok (decimal_value neg m e10)
    | None => Raise ValueError
    end.

(** [a / b] on floats: a zero divisor raises. *)
Definition py_truediv (a b : float) : result float :=
  if (b =? 0)%float then Raise ZeroDivisionError else Ok (a / b).

(** The integer nearest to [a / b], ties to the even one, for [0 <= a] and
    [0 < b]. *)
Definition div_half_even (a b : Z) : Z :=
  let q := (a / b)%Z in
  match (2 * (a mod b) ?= b)%Z with
  | Lt => q
  | Gt => (q + 1)%Z
  | Eq => if Z.even q then q else (q + 1)%Z
  end.

(** The integer nearest to [100 * m * 2 ^ e] (ties to even), for [0 <= m]. *)
Definition hundredths (m e : Z) : Z :=
  if (0 <=? e)%Z then (100 * m * 2 ^ e)%Z else div_half_even (100 * m) (2 ^ (- e)).

(** [round(x, 2)] for a float [x]: infinities and NaN round to themselves;
    a finite [x] is rounded, on its exact value and ties to even, to a
    multiple of 1/100, and the float nearest to that decimal is returned
    with the sign of [x]. *)
Definition py_round2 (x : float) : float :=
  match Prim2SF x with
  | S754_finite neg m e =>
      match hundredths (Zpos m) e with
      | Zpos n => float_of_ratio neg n 100
      | _ => float_zero neg
      end
  | _ => x
  end.

(** ** Automated data enrichment *)

(** [automated_geocoding(location_text, lat, long)]. *)
Definition automated_geocoding (location_text : pyval) (lat long : float)
  : ClassificationResult :=
  if (41.92 <=? lat) && (lat <=? 41.94) && (-87.73 <=? long) && (long <=? -87.70) then
    {| Neighborhood := "Logan Square"; MatchScore := 1.0 |}
  else if (41.92 <=? lat) && (lat <=? 41.93) && (-87.74 <=? long) && (long <=? -87.72) then
    {| Neighborhood := "Avondale"; MatchScore := 0.9 |}
  else if (41.90 <=? lat) && (lat <=? 41.92) && (-87.75 <=? long) && (long <=? -87.73) then
    {| Neighborhood := "Hermosa"; MatchScore := 0.85 |}
  else
    {| Neighborhood := "Outside Target"; MatchScore := 0.0 |}.

(** A call of [automated_geocoding] with a list of positional arguments: the
    function has three required parameters, so any other number of
    arguments raises [TypeError] before the body runs, and so does the
    comparison of a string with a float in the body. *)
Definition call_automated_geocoding (args : list pyval) : result ClassificationResult :=
  match args with
  | [location_text; PyFloat lat; PyFloat long] =>
      Ok (automated_geocoding location_text lat long)
  | _ => Raise TypeError
  end.

(** [automated_nlp_analysis(description)]. *)
Definition automated_nlp_analysis (description : string) : FeatureSignals :=
  let re_included :=
    re_search ["real estate included"; "building included"; "property included"]
      (str_lower description) in
  let motivated :=
    re_search ["owner retiring"; "needs quick sale"; "moving out of state"; "must sell"; "quick exit"]
      (str_lower description) in
  let old_equipment :=
    re_search ["old equipment"; "older machines"; "ready for upgrade"; "inefficient machines"]
      (str_lower description) in
  let high_capacity :=
    re_search ["high-capacity"; "modern equipment"; "fully updated"]
      (str_lower description) in
  {| RealEstateIncluded := re_included;
     SellerMotivation := motivated;
     OldEquipment := old_equipment;
     HighCapacity := high_capacity |}.

(** *** [calculate_opportunity_score(listing)]

    The four [if ...: score += ...] statements, each taking the running
    [score] to its next value. *)

(** 1. Location score. *)
Definition add_location_score (listing : MergedListing) (score : float) : float :=
  if str_in (Neighborhood (geo_of listing)) TARGET_NEIGHBORHOODS
  then score + WEIGHTS.LocationMatch * MatchScore (geo_of listing)
  else score.

(** 2. Real estate score. *)
Definition add_real_estate_score (listing : MergedListing) (score : float) : float :=
  if RealEstateIncluded (nlp_of listing) then score + WEIGHTS.RealEstateIncluded else score.

(** 3. Seller motivation score. *)
Definition add_motivation_score (listing : MergedListing) (score : float) : float :=
  if SellerMotivation (nlp_of listing) then score + WEIGHTS.SellerMotivation else score.

(** 4. Concept potential score. *)
Definition add_concept_score (listing : MergedListing) (score : float) : float :=
  if OldEquipment (nlp_of listing) || HighCapacity (nlp_of listing)
  then score + WEIGHTS.HighCapacity
  else score.

(** The value of [score] when the [return] statement is reached. *)
Definition accumulated_score (listing : MergedListing) : float :=
  add_concept_score listing
    (add_motivation_score listing
       (add_real_estate_score listing
          (add_location_score listing 0))).

Definition calculate_opportunity_score (listing : MergedListing) : float :=
  py_round2 (accumulated_score listing).

(** ** The engine *)

(** Step 4 of the loop body, the [try] statement: the value stored under
    ['CapRate (%)']. *)
Definition cap_rate (processed_listing : MergedListing) : result float :=
  try_except_ValueError
    (cf <- py_float (str_remove "," (str_remove "$" (CashFlow (listing_of processed_listing)))) ;;
     price <- py_float (str_remove "," (str_remove "$" (Price (listing_of processed_listing)))) ;;
     ratio <- py_truediv cf price ;;
     Ok (py_round2 (ratio * 100)))
    (Ok 0.0).

(** Steps 2 to 4 of the loop body: what is appended to [processed_data]
    once [geo_data] is known. *)
Definition process_listing (listing : RawListing) (geo_data : ClassificationResult)
  : result ScoredListing :=
  let nlp_data := automated_nlp_analysis (Description listing) in
  let processed_listing :=
    {| listing_of := listing; geo_of := geo_data; nlp_of := nlp_data |} in
  let score := calculate_opportunity_score processed_listing in
  cap <- cap_rate processed_listing ;;
  Ok {| merged_of := processed_listing; OpportunityScore := score; CapRate := cap |}.

(** The loop body as written: step 1 calls [automated_geocoding] with the
    two arguments [listing['Lat']] and [listing['Long']]. *)
Definition loop_body (listing : RawListing) : result ScoredListing :=
  geo_data <- call_automated_geocoding [PyFloat (Lat listing); PyFloat (Long listing)] ;;
  process_listing listing geo_data.

(** [for listing in data: ...; processed_data.append(processed_listing)]. *)
Fixpoint for_each_listing (data : list RawListing) : result (list ScoredListing) :=
  match data with
  | [] => Ok []
  | listing :: rest =>
      processed_listing <- loop_body listing ;;
      processed_data <- for_each_listing rest ;;
      Ok (processed_listing :: processed_data)
  end.

(** *** Sorting *)

Section StableSort.
Context {A : Type}.
Variable cmp : A -> A -> comparison.

(** [x] goes in front of the first element it does not have to follow. *)
Fixpoint insert_stable (x : A) (l : list A) : list A :=
  match l with
  | [] => [x]
  | y :: l' =>
      match cmp x y with
      | Gt => y :: insert_stable x l'
      | _ => x :: l
      end
  end.

Definition stable_sort (l : list A) : list A :=
  fold_right insert_stable [] l.

(** [x] ties with [r]: neither has to come before the other. *)
Definition ties (r x : A) : bool :=
  match cmp r x with
  | Eq => true
  | _ => false
  end.
End StableSort.

(** The order of one column sorted with [ascending=False] and the default
    [na_position='last']: larger values first, NaN after every number. *)
Definition compare_descending (a b : float) : comparison :=
  match is_nan a, is_nan b with
  | true, true => Eq
  | true, false => Gt
  | false, true => Lt
  | false, false =>
      match PrimFloat.compare b a with
      | FLt => Lt
      | FGt => Gt
      | _ => Eq
      end
  end.

(** The order of [by=['OpportunityScore', 'CapRate (%)']]: the first column
    decides, the second breaks its ties. *)
Definition compare_rows (r1 r2 : ScoredListing) : comparison :=
  match compare_descending (OpportunityScore r1) (OpportunityScore r2) with
  | Eq => compare_descending (CapRate r1) (CapRate r2)
  | c => c
  end.

(** [df.sort_values(by=['OpportunityScore', 'CapRate (%)'],
    ascending=[False, False])].  With several [by] columns pandas sorts
    with a stable lexicographic sort of the row positions, whatever [kind]
    is: rows that compare equal on every column keep their order.  A frame
    built from an empty list has no columns, and naming one raises
    [KeyError]. *)
Definition sort_values (df : list ScoredListing) : result (list ScoredListing) :=
  match df with
  | [] => Raise KeyError
  | _ => Ok (stable_sort compare_rows df)
  end.

(** The rows of the frame [run_acquisition_engine] returns: the twelve
    selected columns, in the order of the selection. *)
Module DisplayRow.
Record t : Set := {
  OpportunityScore : float;
  Title : string;
  Neighborhood : string;
  Price : string;
  CashFlow : string;
  CapRate : float;
  RealEstateIncluded : bool;
  SellerMotivation : bool;
  Location : string;
  Description : string;
  Lat : float;
  Long : float
}.
End DisplayRow.

(** [df[['OpportunityScore', 'Title', ..., 'Lat', 'Long']]] on one row. *)
Definition select_columns (r : ScoredListing) : DisplayRow.t :=
  let m := merged_of r in
  {| DisplayRow.OpportunityScore := OpportunityScore r;
     DisplayRow.Title := Title (listing_of m);
     DisplayRow.Neighborhood := Neighborhood (geo_of m);
     DisplayRow.Price := Price (listing_of m);
     DisplayRow.CashFlow := CashFlow (listing_of m);
     DisplayRow.CapRate := CapRate r;
     DisplayRow.RealEstateIncluded := RealEstateIncluded (nlp_of m);
     DisplayRow.SellerMotivation := SellerMotivation (nlp_of m);
     DisplayRow.Location := Location (listing_of m);
     DisplayRow.Description := Description (listing_of m);
     DisplayRow.Lat := Lat (listing_of m);
     DisplayRow.Long := Long (listing_of m) |}.

(** [run_acquisition_engine(data)]. *)
Definition run_acquisition_engine (data : list RawListing) : result (list DisplayRow.t) :=
  processed_data <- for_each_listing data ;;
  df <- sort_values processed_data ;;
  Ok (map select_columns df).

(** ** The dashboard *)

Definition df_targets : result (list DisplayRow.t) :=
  run_acquisition_engine MOCK_SCRAPED_DATA.

(** [df[df['Neighborhood'].isin(selected_hoods)]]. *)
Definition filter_neighborhood (selected_hoods : list string) (df : list DisplayRow.t) : list DisplayRow.t :=
  filter (fun r => str_in (DisplayRow.Neighborhood r) selected_hoods) df.

(** [df[df['OpportunityScore'] >= min_score]]. *)
Definition filter_min_score (min_score : float) (df : list DisplayRow.t) : list DisplayRow.t :=
  filter (fun r => min_score <=? DisplayRow.OpportunityScore r) df.

(** [df[df['RealEstateIncluded'] == True]]. *)
Definition filter_real_estate (df : list DisplayRow.t) : list DisplayRow.t :=
  filter (fun r => Bool.eqb (DisplayRow.RealEstateIncluded r) true) df.

(** [df[df['CapRate (%)'] >= min_cap_rate]]. *)
Definition filter_min_cap_rate (min_cap_rate : float) (df : list DisplayRow.t) : list DisplayRow.t :=
  filter (fun r => min_cap_rate <=? DisplayRow.CapRate r) df.

(** Section 2 of the dashboard, "Apply Filters". *)
Definition df_filtered (selected_hoods : list string) (min_score : float)
    (re_filter : bool) (min_cap_rate : float) (df_targets : list DisplayRow.t) : list DisplayRow.t :=
  let df_filtered := filter_neighborhood selected_hoods df_targets in
  let df_filtered := filter_min_score min_score df_filtered in
  let df_filtered := if re_filter then filter_real_estate df_filtered else df_filtered in
  filter_min_cap_rate min_cap_rate df_filtered.

(** Section 3 of the dashboard, "Key Performance Indicators": the two
    counts. *)

(** "Total Qualified Targets": [len(df_filtered)]. *)
Definition total_qualified_targets (df_filtered : list DisplayRow.t) : nat :=
  List.length df_filtered.

(** "Real Estate Targets":
    [df_filtered['RealEstateIncluded'].sum() if not df_filtered.empty else 0],
    the sum of a column of booleans being the number of its [True]s. *)
Definition real_estate_targets (df_filtered : list DisplayRow.t) : nat :=
  match df_filtered with
  | [] => 0
  | _ :: _ => List.length (filter DisplayRow.RealEstateIncluded df_filtered)
  end.

(** ** The rule table of the specification

    The Location Classifier as the specification words it: an ordered list
    of bounding-box rules, evaluated in sequence, the first rule whose box
    contains the point giving the result. *)

Record BoxRule : Set := {
  lat_min : float;
  lat_max : float;
  long_min : float;
  long_max : float;
  rule_result : ClassificationResult
}.

(** Both ends of both intervals belong to the box. *)
Definition in_box (r : BoxRule) (lat long : float) : bool :=
  (lat_min r <=? lat) && (lat <=? lat_max r) &&
  (long_min r <=? long) && (long <=? long_max r).

Definition OUTSIDE_TARGET : ClassificationResult :=
  {| Neighborhood := "Outside Target"; MatchScore := 0.0 |}.

Definition spec_rules : list BoxRule := [
  {| lat_min := 41.92; lat_max := 41.94; long_min := -87.73; long_max := -87.70;
     rule_result := {| Neighborhood := "Logan Square"; MatchScore := 1.0 |} |};
  {| lat_min := 41.92; lat_max := 41.93; long_min := -87.74; long_max := -87.72;
     rule_result := {| Neighborhood := "Avondale"; MatchScore := 0.9 |} |};
  {| lat_min := 41.90; lat_max := 41.92; long_min := -87.75; long_max := -87.73;
     rule_result := {| Neighborhood := "Hermosa"; MatchScore := 0.85 |} |}
].

Fixpoint spec_first_match (rules : list BoxRule) (lat long : float) : ClassificationResult :=
  match rules with
  | [] => OUTSIDE_TARGET
  | r :: rest => if in_box r lat long then rule_result r else spec_first_match rest lat long
  end.

(** ** Inputs and notions the statements below refer to *)

(** The first entry of [MOCK_SCRAPED_DATA], the listing of the end-to-end
    example. *)
Definition example_listing : RawListing :=
  {| Title := "Profitable Laundromat, Owner Retiring";
     Location := "2800 N. Milwaukee Ave, Chicago, IL";
     Price := "$750,000"; CashFlow := "$150,000";
     Description := "High volume store with old equipment. Real estate included. Owner retiring after 35 years. Great for a new concept build-out. 3,000 sq ft.";
     Lat := 41.933; Long := -87.712 |}.

(** [listing] with its price text replaced. *)
Definition with_price (price : string) (listing : RawListing) : RawListing :=
  {| Title := Title listing; Location := Location listing;
     Price := price; CashFlow := CashFlow listing;
     Description := Description listing;
     Lat := Lat listing; Long := Long listing |}.



(** [p] occurs in [s]. *)
Definition occurs (p s : string) : Prop :=
  exists before after : string, s = before ++ p ++ after.

(** A merged listing of [example_listing] with the given classification and
    signals. *)
Definition example_merged (neighborhood : string) (match_score : float)
    (re_included motivated old high : bool) : MergedListing :=
  {| listing_of := example_listing;
     geo_of := {| Neighborhood := neighborhood; MatchScore := match_score |};
     nlp_of := {| RealEstateIncluded := re_included; SellerMotivation := motivated;
                  OldEquipment := old; HighCapacity := high |} |}.

(** The rows that tie with [r] in the order of the sort. *)
Definition ties_with (r x : ScoredListing) : bool :=
  ties compare_rows r x.

(** *** Sort keys

    The order of the sort read as the lexicographic order of integer keys,
    from which it inherits being a total preorder. *)

Fixpoint lex_compare (k1 k2 : list Z) : comparison :=
  match k1, k2 with
  | [], [] => Eq
  | [], _ :: _ => Lt
  | _ :: _, [] => Gt
  | a :: k1', b :: k2' =>
      match (a ?= b)%Z with
      | Eq => lex_compare k1' k2'
      | c => c
      end
  end.

(** Larger numbers get smaller keys; the two zeros get the same key. *)
Definition descending_key (x : spec_float) : list Z :=
  match x with
  | S754_nan => [1; 0; 0; 0]
  | S754_infinity false => [0; -2; 0; 0]
  | S754_finite false m e => [0; -1; - e; Zneg m]
  | S754_zero _ => [0; 0; 0; 0]
  | S754_finite true m e => [0; 1; e; Zpos m]
  | S754_infinity true => [0; 2; 0; 0]
  end%Z.

Definition row_key (r : ScoredListing) : list Z :=
  (descending_key (Prim2SF (OpportunityScore r)) ++ descending_key (Prim2SF (CapRate r)))%list.

(** *** Bounds on binary64 numbers

    The notions the range of the score is proved with, on the
    sign-mantissa-exponent form [Prim2SF] gives of a float. *)

(** [mrs] is what shifting the mantissa [m] right by [k] bits leaves: the
    quotient, and round and sticky bits that are set only if bits were
    lost. *)
Definition shifted (m k : Z) (mrs : shr_record) : Prop :=
  shr_m mrs = (m / 2 ^ k)%Z /\
  (shr_r mrs = true \/ shr_s mrs = true -> (m mod 2 ^ k)%Z <> 0%Z).

(** [x] is a zero or a positive number of value at most the integer [B]. *)
Definition within (B : Z) (x : spec_float) : Prop :=
  match x with
  | S754_zero _ => True
  | S754_finite false m e => (e <= 0)%Z /\ (Zpos m <= B * 2 ^ (- e))%Z
  | _ => False
  end.

(** [listing] with its cash-flow text replaced. *)
Definition with_cash_flow (cash_flow : string) (listing : RawListing) : RawListing :=
  {| Title := Title listing; Location := Location listing;
     Price := Price listing; CashFlow := cash_flow;
     Description := Description listing;
     Lat := Lat listing; Long := Long listing |}.

(** The loop body's result for [listing] when the classifier is called with
    a location text and the coordinates of the listing. *)
Definition classified (loc : pyval) (listing : RawListing) : MergedListing :=
  {| listing_of := listing;
     geo_of := automated_geocoding loc (Lat listing) (Long listing);
     nlp_of := automated_nlp_analysis (Description listing) |}.

(** A row the loop body appends for some listing once the classifier has
    been called on the coordinates of the listing. *)
Definition pipeline_row (r : ScoredListing) : Prop :=
  exists (loc : pyval) (listing : RawListing),
    process_listing listing (automated_geocoding loc (Lat listing) (Long listing)) = Ok r.

(** The four criteria of "Apply Filters" on one row. *)
Definition row_qualifies (selected_hoods : list string) (min_score : float)
    (re_filter : bool) (min_cap_rate : float) (r : DisplayRow.t) : bool :=
  str_in (DisplayRow.Neighborhood r) selected_hoods
  && (min_score <=? DisplayRow.OpportunityScore r)
  && (if re_filter then Bool.eqb (DisplayRow.RealEstateIncluded r) true else true)
  && (min_cap_rate <=? DisplayRow.CapRate r).

(** * Properties *)

(** ** The call of the classifier (C2, C1) *)

Lemma example_listing_first : hd_error MOCK_SCRAPED_DATA = Some example_listing.
Proof. reflexivity. Qed.

Lemma call_with_two_arguments (a b : pyval) :
  call_automated_geocoding [a; b] = Raise TypeError.
Proof. destruct a, b; reflexivity. Qed.

Lemma loop_body_raises (listing : RawListing) :
  loop_body listing = Raise TypeError.
Proof. reflexivity. Qed.

(** C2: [automated_geocoding] only runs on three arguments; the loop body
    calls it with the two arguments [Lat] and [Long], so the call raises
    [TypeError]; on every input with at least one listing the loop, and with
    it [run_acquisition_engine], raises [TypeError] and no scored listing is
    produced. *)
Theorem run_acquisition_engine_TypeError :
  (forall (args : list pyval) (geo_data : ClassificationResult),
      call_automated_geocoding args = Ok geo_data -> List.length args = 3%nat) /\
  (forall a b : pyval, call_automated_geocoding [a; b] = Raise TypeError) /\
  (forall (listing : RawListing) (rest : list RawListing),
      loop_body listing = Raise TypeError /\
      for_each_listing (listing :: rest) = Raise TypeError /\
      run_acquisition_engine (listing :: rest) = Raise TypeError).
Proof.
  split; [| split].
  - intros [| a [| b [| c [| d args]]]] geo_data H; try reflexivity;
      try discriminate H;
      repeat match goal with x : pyval |- _ => destruct x end;
      discriminate H.
  - exact call_with_two_arguments.
  - intros listing rest.
    assert (H : for_each_listing (listing :: rest) = Raise TypeError).
    { cbn [for_each_listing]. rewrite loop_body_raises. reflexivity. }
    split; [apply loop_body_raises |].
    split; [exact H |].
    unfold run_acquisition_engine. rewrite H. reflexivity.
Qed.

(** C1: on the listing of the end-to-end example the engine as written
    raises [TypeError] and returns no row.  The values of the example are
    those the rest of the loop body computes once the classifier is called
    with all three of its arguments: Logan Square with match score 1.0, the
    three signals true, score 100.0 and cap rate 20.0. *)
Theorem end_to_end_example :
  run_acquisition_engine [example_listing] = Raise TypeError /\
  process_listing example_listing
    (automated_geocoding (PyStr (Location example_listing))
       (Lat example_listing) (Long example_listing))
  = Ok {| merged_of :=
            {| listing_of := example_listing;
               geo_of := {| Neighborhood := "Logan Square"; MatchScore := 1.0 |};
               nlp_of := {| RealEstateIncluded := true; SellerMotivation := true;
                            OldEquipment := true; HighCapacity := false |} |};
          OpportunityScore := 100;
          CapRate := 20 |}.
Proof. split; vm_compute; reflexivity. Qed.

(** The dashboard's own call of the engine, on [MOCK_SCRAPED_DATA]. *)
Lemma df_targets_raises : df_targets = Raise TypeError.
Proof. reflexivity. Qed.

(** ** The financial step (C3) *)

Lemma py_float_raises (s : string) (e : exn) :
  py_float s = Raise e -> e = ValueError.
Proof.
  unfold py_float.
  destruct (read_sign (rstrip (lstrip s))) as [neg body].
  destruct (String.eqb (str_lower body) "inf" || String.eqb (str_lower body) "infinity");
    [discriminate |].
  destruct (String.eqb (str_lower body) "nan"); [discriminate |].
  destruct (read_decimal body) as [[m e10] |]; [discriminate |].
  intros H. injection H as <-. reflexivity.
Qed.

(** A cash-flow or price text that [float()] rejects is caught by the
    handler: the cap rate is 0.0. *)
Lemma cap_rate_ValueError (listing : MergedListing) :
  py_float (str_remove "," (str_remove "$" (CashFlow (listing_of listing)))) = Raise ValueError \/
  py_float (str_remove "," (str_remove "$" (Price (listing_of listing)))) = Raise ValueError ->
  cap_rate listing = Ok 0.0.
Proof.
  intros H. unfold cap_rate.
  destruct (py_float (str_remove "," (str_remove "$" (CashFlow (listing_of listing)))))
    as [cf | e] eqn:Hcf.
  - destruct H as [H | H]; [discriminate |].
    cbn [bind]. rewrite H. reflexivity.
  - apply py_float_raises in Hcf. subst e. reflexivity.
Qed.



(** A price that parses to zero makes the division raise, and the handler
    of [ValueError] does not catch it. *)
Lemma cap_rate_zero_price (listing : MergedListing) (cf price : float) :
  py_float (str_remove "," (str_remove "$" (CashFlow (listing_of listing)))) = Ok cf ->
  py_float (str_remove "," (str_remove "$" (Price (listing_of listing)))) = Ok price ->
  (price =? 0) = true ->
  cap_rate listing = Raise ZeroDivisionError.
Proof.
  intros Hcf Hprice Hzero. unfold cap_rate.
  rewrite Hcf. cbn [bind]. rewrite Hprice. cbn [bind].
  unfold py_truediv. rewrite Hzero. reflexivity.
Qed.

(** C3: a listing priced ["$0"] is not given cap rate 0.0: the division
    raises [ZeroDivisionError], which [except ValueError] lets through, so
    the loop body raises and nothing is appended; the malformed price
    ["N/A"] does give cap rate 0.0. *)
Theorem zero_price_raises :
  forall geo_data : ClassificationResult,
    cap_rate {| listing_of := with_price "$0" example_listing;
                geo_of := geo_data;
                nlp_of := automated_nlp_analysis (Description example_listing) |}
    = Raise ZeroDivisionError /\
    process_listing (with_price "$0" example_listing) geo_data = Raise ZeroDivisionError /\
    exists processed_listing,
      process_listing (with_price "N/A" example_listing) geo_data = Ok processed_listing /\
      CapRate processed_listing = 0.0.
Proof.
  intros geo_data.
  assert (H : cap_rate {| listing_of := with_price "$0" example_listing;
                          geo_of := geo_data;
                          nlp_of := automated_nlp_analysis (Description example_listing) |}
              = Raise ZeroDivisionError).
  { apply cap_rate_zero_price with (cf := 150000) (price := 0);
      vm_compute; reflexivity. }
  split; [exact H |]. split.
  - unfold process_listing. cbn [Description with_price].
    rewrite H. reflexivity.
  - unfold process_listing. rewrite cap_rate_ValueError.
    + eexists. split; reflexivity.
    + right. vm_compute. reflexivity.
Qed.

(** ** The location classifier (C4) *)

(** What evaluating a rule list in order returns: the result of a rule
    whose box contains the point while no earlier box does, or the
    fallback when no box contains it. *)
Lemma spec_first_match_first (rules : list BoxRule) (lat long : float) :
  (exists before r after,
      rules = (before ++ r :: after)%list /\
      in_box r lat long = true /\
      (forall r', In r' before -> in_box r' lat long = false) /\
      spec_first_match rules lat long = rule_result r) \/
  ((forall r, In r rules -> in_box r lat long = false) /\
   spec_first_match rules lat long = OUTSIDE_TARGET).
Proof.
  induction rules as [| r rules IH].
  - right. split; [intros r [] | reflexivity].
  - cbn [spec_first_match]. destruct (in_box r lat long) eqn:Hr.
    + left. exists [], r, rules. repeat split; auto. intros r' [].
    + destruct IH as [(before & r0 & after & -> & Hin & Hbefore & Heq) | [Hnone Heq]].
      * left. exists (r :: before), r0, after. repeat split; auto.
        intros r' [<- | Hr']; auto.
      * right. split; auto. intros r' [<- | Hr']; auto.
Qed.

Lemma automated_geocoding_spec_rules (location_text : pyval) (lat long : float) :
  automated_geocoding location_text lat long = spec_first_match spec_rules lat long.
Proof.
  unfold automated_geocoding, spec_rules, spec_first_match, in_box.
  cbn [lat_min lat_max long_min long_max rule_result].
  reflexivity.
Qed.

(** C4: on every point the classifier returns one result, that of the
    first rule of the ordered table whose box, both ends included, contains
    the point, and (Outside Target, 0.0) when no box does; points on an edge
    or corner that two boxes share go to the earlier rule. *)
Theorem classifier_first_match :
  (forall (location_text : pyval) (lat long : float),
      automated_geocoding location_text lat long = spec_first_match spec_rules lat long /\
      ((exists before r after,
           spec_rules = (before ++ r :: after)%list /\
           in_box r lat long = true /\
           (forall r', In r' before -> in_box r' lat long = false) /\
           automated_geocoding location_text lat long = rule_result r) \/
       ((forall r, In r spec_rules -> in_box r lat long = false) /\
        automated_geocoding location_text lat long = OUTSIDE_TARGET))) /\
  (forall location_text : pyval,
      (* the corner the three boxes share *)
      forallb (fun r => in_box r 41.92 (-87.73)) spec_rules = true /\
      Neighborhood (automated_geocoding location_text 41.92 (-87.73)) = "Logan Square" /\
      (* a corner of the first box on an edge of the second *)
      map (fun r => in_box r 41.93 (-87.72)) spec_rules = [true; true; false] /\
      Neighborhood (automated_geocoding location_text 41.93 (-87.72)) = "Logan Square" /\
      (* a corner of the second box on an edge of the third *)
      map (fun r => in_box r 41.92 (-87.74)) spec_rules = [false; true; true] /\
      Neighborhood (automated_geocoding location_text 41.92 (-87.74)) = "Avondale" /\
      (* the far corners of the first and of the last box *)
      automated_geocoding location_text 41.94 (-87.70)
      = {| Neighborhood := "Logan Square"; MatchScore := 1.0 |} /\
      automated_geocoding location_text 41.90 (-87.75)
      = {| Neighborhood := "Hermosa"; MatchScore := 0.85 |}).
Proof.
  split.
  - intros location_text lat long.
    rewrite automated_geocoding_spec_rules.
    split; [reflexivity | apply spec_first_match_first].
  - intros location_text. repeat split; vm_compute; reflexivity.
Qed.

(** ** The opportunity score (C6, C7) *)


Lemma str_in_In (x : string) (xs : list string) :
  str_in x xs = true <-> In x xs.
Proof.
  unfold str_in. rewrite existsb_exists. split.
  - intros (y & Hy & Heq). apply String.eqb_eq in Heq. subst. exact Hy.
  - intros H. exists x. split; [exact H | apply String.eqb_refl].
Qed.



(** ** The dashboard filters (C9) *)

Lemma filter_filter_comm {A : Type} (f g : A -> bool) (l : list A) :
  filter f (filter g l) = filter g (filter f l).
Proof.
  induction l as [| x l IH]; [reflexivity |].
  cbn [filter]. destruct (f x) eqn:Hf, (g x) eqn:Hg; cbn [filter];
    rewrite ?Hf, ?Hg, IH; reflexivity.
Qed.

(** C9: filtering by neighborhood and then by minimum score gives the same
    rows, in the same order, as filtering by minimum score and then by
    neighborhood: the rows of the frame that satisfy both criteria. *)
Theorem filters_commute (selected_hoods : list string) (min_score : float)
    (df : list DisplayRow.t) :
  filter_min_score min_score (filter_neighborhood selected_hoods df)
  = filter_neighborhood selected_hoods (filter_min_score min_score df) /\
  (forall r : DisplayRow.t,
      In r (filter_min_score min_score (filter_neighborhood selected_hoods df)) <->
      In r df /\
      In (DisplayRow.Neighborhood r) selected_hoods /\
      (min_score <=? DisplayRow.OpportunityScore r) = true).
Proof.
  split.
  - apply filter_filter_comm.
  - intros r. unfold filter_min_score, filter_neighborhood.
    rewrite !filter_In, str_in_In. tauto.
Qed.

(** ** The text feature extractor (C10) *)

Lemma prefix_app (p s : string) :
  String.prefix p s = true <-> exists after, s = p ++ after.
Proof.
  revert s. induction p as [| a p IH]; intros s.
  - split; [intros _; exists s; reflexivity | intros _; destruct s; reflexivity].
  - destruct s as [| b s]; cbn [String.prefix].
    + split; [discriminate | intros [after H]; discriminate H].
    + destruct (ascii_dec a b) as [<- | Hne].
      * rewrite IH. split; intros [after H]; exists after.
        -- cbn. f_equal. exact H.
        -- cbn in H. injection H as H. exact H.
      * split; [discriminate |].
        intros [after H]. cbn in H. injection H as H _. congruence.
Qed.

Lemma contains_occurs (p s : string) :
  contains p s = true <-> occurs p s.
Proof.
  unfold occurs. induction s as [| c s IH].
  - cbn [contains]. rewrite orb_false_r, prefix_app. split.
    + intros [after H]. exists "", after. exact H.
    + intros (before & after & H). destruct before; [exists after; exact H |].
      discriminate H.
  - cbn [contains]. rewrite orb_true_iff, prefix_app, IH. split.
    + intros [[after H] | (before & after & H)].
      * exists "", after. exact H.
      * exists (String c before), after. cbn. f_equal. exact H.
    + intros (before & after & H). destruct before as [| b before].
      * left. exists after. exact H.
      * right. cbn in H. injection H as _ H. exists before, after. exact H.
Qed.

Lemma re_search_occurs (alternatives : list string) (text : string) :
  re_search alternatives text = true <->
  exists p, In p alternatives /\ occurs p text.
Proof.
  unfold re_search. rewrite existsb_exists.
  split; intros (p & Hp & H); exists p; split; auto; apply contains_occurs; exact H.
Qed.

(** C10: each of the four signals is true exactly when one of the phrases
    of its group occurs in the lower-cased description, the groups being
    tested independently of one another and with no regard to negation: a
    description with a phrase of every group sets the four signals, a
    description with none sets no signal, and "not real estate included"
    sets the real-estate signal. *)
Theorem nlp_signals :
  (forall description : string,
      let signals := automated_nlp_analysis description in
      let text := str_lower description in
      (RealEstateIncluded signals = true <->
       exists p, In p ["real estate included"; "building included"; "property included"] /\
                 occurs p text) /\
      (SellerMotivation signals = true <->
       exists p, In p ["owner retiring"; "needs quick sale"; "moving out of state";
                       "must sell"; "quick exit"] /\
                 occurs p text) /\
      (OldEquipment signals = true <->
       exists p, In p ["old equipment"; "older machines"; "ready for upgrade";
                       "inefficient machines"] /\
                 occurs p text) /\
      (HighCapacity signals = true <->
       exists p, In p ["high-capacity"; "modern equipment"; "fully updated"] /\
                 occurs p text)) /\
  automated_nlp_analysis
    "Building Included. Owner MUST SELL. Older machines, some High-Capacity washers."
  = {| RealEstateIncluded := true; SellerMotivation := true;
       OldEquipment := true; HighCapacity := true |} /\
  automated_nlp_analysis "Small store focused on wash and fold."
  = {| RealEstateIncluded := false; SellerMotivation := false;
       OldEquipment := false; HighCapacity := false |} /\
  automated_nlp_analysis "not real estate included"
  = {| RealEstateIncluded := true; SellerMotivation := false;
       OldEquipment := false; HighCapacity := false |}.
Proof.
  split; [| repeat split].
  intros description signals text. subst signals text.
  unfold automated_nlp_analysis.
  cbn [RealEstateIncluded SellerMotivation OldEquipment HighCapacity].
  repeat split; try (apply re_search_occurs); try (apply <- re_search_occurs).
Qed.

(** ** The sort (C8) *)

Section StableSortFacts.
Context {A : Type}.
Variable cmp : A -> A -> comparison.
Hypothesis cmp_flip : forall x y, cmp y x = CompOpp (cmp x y).
Hypothesis cmp_trans :
  forall x y z, cmp x y <> Gt -> cmp y z <> Gt -> cmp x z <> Gt.

Lemma insert_stable_perm (x : A) (l : list A) :
  Permutation (x :: l) (insert_stable cmp x l).
Proof.
  induction l as [| y l IH]; cbn [insert_stable]; [reflexivity |].
  destruct (cmp x y); try reflexivity.
  rewrite perm_swap. apply perm_skip. exact IH.
Qed.

Lemma stable_sort_perm (l : list A) :
  Permutation l (stable_sort cmp l).
Proof.
  induction l as [| x l IH]; cbn; [reflexivity |].
  rewrite <- insert_stable_perm. apply perm_skip. exact IH.
Qed.

Lemma insert_stable_sorted (x : A) (l : list A) :
  StronglySorted (fun a b => cmp a b <> Gt) l ->
  StronglySorted (fun a b => cmp a b <> Gt) (insert_stable cmp x l).
Proof.
  induction 1 as [| y l Hl IH Hy]; cbn [insert_stable].
  - repeat constructor.
  - destruct (cmp x y) eqn:Hxy.
    + constructor; [constructor; assumption |].
      constructor; [congruence |].
      eapply Forall_impl; [| exact Hy].
      intros z Hz. apply cmp_trans with y; congruence.
    + constructor; [constructor; assumption |].
      constructor; [congruence |].
      eapply Forall_impl; [| exact Hy].
      intros z Hz. apply cmp_trans with y; congruence.
    + constructor; [exact IH |].
      rewrite <- insert_stable_perm. constructor; [| exact Hy].
      rewrite cmp_flip, Hxy. discriminate.
Qed.

Lemma stable_sort_sorted (l : list A) :
  StronglySorted (fun a b => cmp a b <> Gt) (stable_sort cmp l).
Proof.
  induction l as [| x l IH]; cbn; [constructor |].
  apply insert_stable_sorted. exact IH.
Qed.

Lemma ties_passed_over (r x y : A) :
  ties cmp r x = true -> cmp x y = Gt -> ties cmp r y = false.
Proof.
  unfold ties. intros Hrx Hxy.
  destruct (cmp r x) eqn:E; try discriminate.
  destruct (cmp r y) eqn:E'; try reflexivity.
  exfalso. apply (cmp_trans x r y); try congruence.
  rewrite cmp_flip, E. discriminate.
Qed.

Lemma insert_stable_ties (r x : A) (l : list A) :
  filter (ties cmp r) (insert_stable cmp x l) = filter (ties cmp r) (x :: l).
Proof.
  induction l as [| y l IH]; cbn [insert_stable]; [reflexivity |].
  destruct (cmp x y) eqn:Hxy; try reflexivity.
  cbn [filter] in *. rewrite IH.
  destruct (ties cmp r x) eqn:Hrx; [| reflexivity].
  rewrite (ties_passed_over r x y Hrx Hxy). reflexivity.
Qed.

Lemma stable_sort_ties (r : A) (l : list A) :
  filter (ties cmp r) (stable_sort cmp l) = filter (ties cmp r) l.
Proof.
  induction l as [| x l IH]; [reflexivity |].
  cbn [stable_sort fold_right]. fold (stable_sort cmp l).
  rewrite insert_stable_ties. cbn [filter]. rewrite IH. reflexivity.
Qed.
End StableSortFacts.

(** *** The order of the sort is a total preorder *)

Lemma lex_compare_flip (k1 k2 : list Z) :
  lex_compare k2 k1 = CompOpp (lex_compare k1 k2).
Proof.
  revert k2. induction k1 as [| a k1 IH]; intros [| b k2]; cbn; try reflexivity.
  rewrite (Z.compare_antisym a b).
  destruct (a ?= b)%Z; cbn; auto.
Qed.

Lemma lex_compare_trans (k1 k2 k3 : list Z) :
  lex_compare k1 k2 <> Gt -> lex_compare k2 k3 <> Gt -> lex_compare k1 k3 <> Gt.
Proof.
  revert k2 k3.
  induction k1 as [| a k1 IH]; intros [| b k2] [| c k3]; cbn; try congruence.
  destruct (Z.compare_spec a b), (Z.compare_spec b c), (Z.compare_spec a c);
    subst; try congruence; try lia.
  apply IH.
Qed.

Lemma lex_compare_app (a a' b b' : list Z) :
  List.length a = List.length a' ->
  lex_compare (a ++ b)%list (a' ++ b')%list
  = match lex_compare a a' with
    | Eq => lex_compare b b'
    | c => c
    end.
Proof.
  revert a'. induction a as [| x a IH]; intros [| y a']; cbn; try discriminate.
  - reflexivity.
  - intros H. injection H as H. destruct (x ?= y)%Z; auto.
Qed.

Lemma descending_key_length (x : spec_float) :
  List.length (descending_key x) = 4%nat.
Proof. destruct x as [[] | [] | | [] m e]; reflexivity. Qed.

Lemma SFcompare_refl (x : spec_float) :
  x <> S754_nan -> SFcompare x x = Some Eq.
Proof.
  destruct x as [s | s | | s m e]; cbn; try congruence.
  - destruct s; reflexivity.
  - intros _. rewrite Z.compare_refl, Pos.compare_cont_refl. destruct s; reflexivity.
Qed.

Lemma is_nan_Prim2SF (a : float) :
  is_nan a = true <-> Prim2SF a = S754_nan.
Proof.
  unfold is_nan. rewrite eqb_spec. unfold SFeqb.
  destruct (Prim2SF a) as [s | s | | s m e] eqn:E.
  all: try rewrite SFcompare_refl by discriminate.
  all: cbn; split; congruence.
Qed.

(** The comparison of two numbers is the comparison of their keys, the
    other way round. *)
Lemma SFcompare_descending_key (x y : spec_float) :
  x <> S754_nan -> y <> S754_nan ->
  SFcompare y x = Some (lex_compare (descending_key x) (descending_key y)).
Proof.
  intros Hx Hy.
  destruct x as [sx | sx | | sx mx ex]; try congruence;
    destruct y as [sy | sy | | sy my ey]; try congruence;
    try (destruct sx, sy; reflexivity).
  destruct sx, sy; cbn; try reflexivity.
  - rewrite (Z.compare_antisym ey ex), Pos.compare_cont_spec.
    rewrite (Pos.compare_antisym my mx).
    destruct (ey ?= ex)%Z; cbn; try reflexivity.
    destruct (my ?= mx)%positive; reflexivity.
  - rewrite Z.compare_opp, Pos.compare_cont_spec.
    destruct (ey ?= ex)%Z; cbn; try reflexivity.
    rewrite <- Pos.compare_antisym.
    destruct (my ?= mx)%positive; reflexivity.
Qed.

Lemma compare_descending_key (a b : float) :
  compare_descending a b
  = lex_compare (descending_key (Prim2SF a)) (descending_key (Prim2SF b)).
Proof.
  unfold compare_descending.
  destruct (is_nan a) eqn:Ha, (is_nan b) eqn:Hb.
  - apply is_nan_Prim2SF in Ha, Hb. rewrite Ha, Hb. reflexivity.
  - apply is_nan_Prim2SF in Ha. rewrite Ha.
    destruct (Prim2SF b) as [[] | [] | | [] m e] eqn:E; try reflexivity.
    apply is_nan_Prim2SF in E. congruence.
  - apply is_nan_Prim2SF in Hb. rewrite Hb.
    destruct (Prim2SF a) as [[] | [] | | [] m e] eqn:E; try reflexivity.
    apply is_nan_Prim2SF in E. congruence.
  - rewrite compare_spec, (SFcompare_descending_key (Prim2SF a) (Prim2SF b)).
    + destruct (lex_compare _ _); reflexivity.
    + intros E. apply is_nan_Prim2SF in E. congruence.
    + intros E. apply is_nan_Prim2SF in E. congruence.
Qed.

Lemma compare_rows_key (r1 r2 : ScoredListing) :
  compare_rows r1 r2 = lex_compare (row_key r1) (row_key r2).
Proof.
  unfold compare_rows, row_key.
  rewrite lex_compare_app, !compare_descending_key.
  - reflexivity.
  - rewrite !descending_key_length. reflexivity.
Qed.

Lemma compare_rows_flip (r1 r2 : ScoredListing) :
  compare_rows r2 r1 = CompOpp (compare_rows r1 r2).
Proof. rewrite !compare_rows_key. apply lex_compare_flip. Qed.

Lemma compare_rows_trans (r1 r2 r3 : ScoredListing) :
  compare_rows r1 r2 <> Gt -> compare_rows r2 r3 <> Gt -> compare_rows r1 r3 <> Gt.
Proof. rewrite !compare_rows_key. apply lex_compare_trans. Qed.

(** *** The order of the sort in terms of the comparisons of floats *)

Lemma compare_descending_Lt (a b : float) :
  compare_descending a b = Lt <->
  (b <? a) = true \/ (is_nan a = false /\ is_nan b = true).
Proof.
  unfold compare_descending.
  rewrite ltb_spec, compare_spec. unfold SFltb.
  destruct (is_nan a) eqn:Ha, (is_nan b) eqn:Hb.
  - apply is_nan_Prim2SF in Ha, Hb. rewrite Ha, Hb. cbn. intuition congruence.
  - apply is_nan_Prim2SF in Ha. rewrite Ha.
    destruct (Prim2SF b); cbn; intuition congruence.
  - apply is_nan_Prim2SF in Hb. rewrite Hb. cbn. intuition congruence.
  - destruct (SFcompare (Prim2SF b) (Prim2SF a)) as [[] |]; cbn; intuition congruence.
Qed.

Lemma compare_descending_Eq (a b : float) :
  compare_descending a b = Eq <->
  (a =? b) = true \/ (is_nan a = true /\ is_nan b = true) .
Proof.
  unfold compare_descending.
  destruct (is_nan a) eqn:Ha, (is_nan b) eqn:Hb.
  - intuition congruence.
  - apply is_nan_Prim2SF in Ha. rewrite eqb_spec. unfold SFeqb. rewrite Ha.
    cbn. intuition congruence.
  - apply is_nan_Prim2SF in Hb. rewrite eqb_spec. unfold SFeqb. rewrite Hb.
    destruct (Prim2SF a); cbn; intuition congruence.
  - rewrite eqb_spec, compare_spec. unfold SFeqb.
    assert (Na : Prim2SF a <> S754_nan) by (intros E; apply is_nan_Prim2SF in E; congruence).
    assert (Nb : Prim2SF b <> S754_nan) by (intros E; apply is_nan_Prim2SF in E; congruence).
    rewrite (SFcompare_descending_key _ _ Nb Na), (SFcompare_descending_key _ _ Na Nb).
    rewrite (lex_compare_flip (descending_key (Prim2SF a))).
    destruct (lex_compare _ _); cbn; intuition congruence.
Qed.

(** C8: [sort_values] orders the rows by opportunity score, larger first,
    and rows of equal score by cap rate, larger first (NaN after every
    number); on every sequence of rows the result is a rearrangement of the
    input in which no row stands before a row that the order puts in front
    of it; and the sort is stable: the rows that tie with a given row on
    both columns appear in the result in the order they have in the
    input. *)
Theorem sort_values_stable :
  (forall a b : float,
      (compare_descending a b = Lt <->
       (b <? a) = true \/ (is_nan a = false /\ is_nan b = true)) /\
      (compare_descending a b = Eq <->
       (a =? b) = true \/ (is_nan a = true /\ is_nan b = true))) /\
  (forall r1 r2 : ScoredListing,
      (compare_rows r1 r2 = Lt <->
       compare_descending (OpportunityScore r1) (OpportunityScore r2) = Lt \/
       (compare_descending (OpportunityScore r1) (OpportunityScore r2) = Eq /\
        compare_descending (CapRate r1) (CapRate r2) = Lt)) /\
      (ties_with r1 r2 = true <->
       compare_descending (OpportunityScore r1) (OpportunityScore r2) = Eq /\
       compare_descending (CapRate r1) (CapRate r2) = Eq)) /\
  (forall (r : ScoredListing) (df : list ScoredListing),
      sort_values (r :: df) = Ok (stable_sort compare_rows (r :: df))) /\
  (forall df : list ScoredListing,
      let sorted := stable_sort compare_rows df in
      Permutation df sorted /\
      StronglySorted (fun r1 r2 => compare_rows r2 r1 <> Lt) sorted /\
      (forall x, filter (ties_with x) sorted = filter (ties_with x) df)).
Proof.
  split; [| split; [| split]].
  - intros a b. split; [apply compare_descending_Lt | apply compare_descending_Eq].
  - intros r1 r2. unfold ties_with, ties, compare_rows.
    destruct (compare_descending (OpportunityScore r1) (OpportunityScore r2));
      destruct (compare_descending (CapRate r1) (CapRate r2));
      intuition congruence.
  - reflexivity.
  - intros df sorted. subst sorted. split; [| split].
    + apply stable_sort_perm.
    + eapply StronglySorted_ind with (P := StronglySorted _);
        [constructor | | apply (stable_sort_sorted compare_rows compare_rows_flip compare_rows_trans)].
      intros a l _ IH Ha. constructor; [exact IH |].
      eapply Forall_impl; [| exact Ha].
      cbn beta. intros b Hab. rewrite compare_rows_flip.
      destruct (compare_rows a b); cbn; congruence.
    + intros x. apply (stable_sort_ties compare_rows compare_rows_flip compare_rows_trans).
Qed.

(** ** The range of the opportunity score (C5)

    Floats are followed through [Prim2SF]: multiplication and addition are
    the exact operation on mantissas and exponents followed by one rounding
    to nearest, and a rounding never takes a value that is at most an
    integer below 2^53 to a value above that integer. *)

Section ScoreRange.
Local Open Scope Z_scope.

(** *** Digits and shifts *)

Lemma digits2_pos_size (p : positive) : digits2_pos p = Pos.size p.
Proof. induction p; cbn; congruence. Qed.

Lemma digits2_pos_upper (p : positive) : Zpos p < 2 ^ Zpos (digits2_pos p).
Proof.
  rewrite digits2_pos_size.
  pose proof (Pos.size_gt p) as H.
  apply Pos2Z.pos_lt_pos in H. rewrite Pos2Z.inj_pow in H. exact H.
Qed.

Lemma digits2_pos_lower (p : positive) : 2 ^ (Zpos (digits2_pos p) - 1) <= Zpos p.
Proof.
  rewrite digits2_pos_size.
  pose proof (Pos.size_le p) as H.
  apply Pos2Z.pos_le_pos in H. rewrite Pos2Z.inj_pow in H.
  replace (Zpos (Pos.size p)) with (Zpos (Pos.size p) - 1 + 1) in H by lia.
  rewrite Z.pow_add_r in H by lia. lia.
Qed.

Lemma iter_pos_comm {A} (f : A -> A) (p : positive) (x : A) :
  iter_pos f p (f x) = f (iter_pos f p x).
Proof.
  revert x. induction p as [p IH | p IH |]; intros x; cbn.
  - rewrite !IH. reflexivity.
  - rewrite !IH. reflexivity.
  - reflexivity.
Qed.

(** The iterator of the specification is plain iteration. *)
Lemma iter_pos_nat {A} (f : A -> A) (p : positive) (x : A) :
  iter_pos f p x = Nat.iter (Pos.to_nat p) f x.
Proof.
  transitivity (Pos.iter f x p).
  - revert x. induction p as [p IH | p IH |]; intros x; cbn [iter_pos Pos.iter].
    + rewrite 2!iter_pos_comm, !IH. reflexivity.
    + rewrite !IH. reflexivity.
    + reflexivity.
  - apply Pos2Nat.inj_iter.
Qed.

(** One shift halves the mantissa; the round bit is the bit shifted out and
    the sticky bit remembers the earlier ones. *)
Lemma shr_1_m (mrs : shr_record) :
  0 <= shr_m mrs ->
  shr_m (shr_1 mrs) = shr_m mrs / 2 /\
  (shr_r (shr_1 mrs) = true -> shr_m mrs mod 2 = 1) /\
  shr_s (shr_1 mrs) = shr_r mrs || shr_s mrs.
Proof.
  destruct mrs as [m r s]. cbn [shr_m shr_r shr_s]. intros Hm.
  destruct m as [| [p | p |] | p]; cbn [shr_1 shr_m shr_r shr_s]; try lia.
  - repeat split; try discriminate.
  - repeat split.
    + rewrite Pos2Z.inj_xI. apply Z.div_unique with 1; lia.
    + intros _. rewrite Pos2Z.inj_xI. symmetry. apply Z.mod_unique with (Zpos p); lia.
  - repeat split; try discriminate.
    rewrite Pos2Z.inj_xO. apply Z.div_unique with 0; lia.
  - repeat split.
Qed.

Lemma shifted_step (m k : Z) (mrs : shr_record) :
  0 <= m -> 0 <= k -> shifted m k mrs -> shifted m (k + 1) (shr_1 mrs).
Proof.
  intros Hm Hk [Hdiv Hinexact].
  assert (Hpos : 0 <= shr_m mrs) by (rewrite Hdiv; apply Z.div_pos; lia).
  destruct (shr_1_m mrs Hpos) as (H1 & H2 & H3).
  assert (P : 0 < 2 ^ k) by (apply Z.pow_pos_nonneg; lia).
  split.
  - rewrite H1, Hdiv, Z.pow_add_r, Z.pow_1_r by lia.
    rewrite Z.div_div by lia. reflexivity.
  - rewrite H3. intros H E.
    rewrite Z.pow_add_r, Z.pow_1_r in E by lia.
    pose proof (Z.div_mod m (2 ^ k * 2) ltac:(lia)) as D. rewrite E in D.
    destruct H as [H | H].
    + apply H2 in H. rewrite Hdiv in H.
      assert (m / 2 ^ k = 2 * (m / (2 ^ k * 2))).
      { rewrite D at 1. replace (2^k * 2 * (m / (2 ^ k * 2)) + 0) with ((2 * (m / (2 ^ k * 2))) * 2 ^ k) by lia.
        apply Z.div_mul. lia. }
      rewrite H0 in H. rewrite Z.mul_comm, Z.mod_mul in H by lia. lia.
    + apply orb_true_iff in H. apply Hinexact; [tauto |].
      rewrite D. replace (2^k * 2 * (m / (2 ^ k * 2)) + 0) with ((2 * (m / (2 ^ k * 2))) * 2 ^ k) by lia.
      apply Z.mod_mul. lia.
Qed.

Lemma shifted_iter (m : Z) (n : nat) (mrs : shr_record) :
  0 <= m -> shifted m 0 mrs -> shifted m (Z.of_nat n) (Nat.iter n shr_1 mrs).
Proof.
  intros Hm H0. induction n as [| n IH]; [exact H0 |].
  rewrite Nat2Z.inj_succ. unfold Z.succ. cbn [Nat.iter].
  apply shifted_step; try lia. exact IH.
Qed.

Lemma shr_shifted (m e n : Z) :
  0 <= m ->
  exists mrs, shr (shr_record_of_loc m loc_Exact) e n = (mrs, e + Z.max 0 n) /\
              shifted m (Z.max 0 n) mrs.
Proof.
  intros Hm.
  assert (H0 : shifted m 0 (shr_record_of_loc m loc_Exact)).
  { split; cbn; [rewrite Z.div_1_r; reflexivity | intros [H | H]; discriminate H]. }
  destruct n as [| p | p]; cbn [shr].
  - eexists; split; [f_equal; cbn; lia | exact H0].
  - eexists; split; [f_equal; lia |].
    rewrite iter_pos_nat. replace (Z.max 0 (Zpos p)) with (Z.of_nat (Pos.to_nat p)) by lia.
    apply shifted_iter; assumption.
  - eexists; split; [f_equal; cbn; lia | exact H0].
Qed.

Lemma Zdigits2_le (m k : Z) :
  0 <= m -> 0 <= k -> m < 2 ^ k -> Zdigits2 m <= k.
Proof.
  intros Hm Hk H. destruct m as [| p | p]; cbn [Zdigits2]; try lia.
  pose proof (digits2_pos_lower p) as L.
  assert (2 ^ (Zpos (digits2_pos p) - 1) < 2 ^ k) by lia.
  apply Z.pow_lt_mono_r_iff in H0; lia.
Qed.

Lemma fexp_le_0 (e : Z) : e <= 53 -> fexp prec emax e <= 0.
Proof. unfold fexp, emin, prec, emax. lia. Qed.

(** The first half of a rounding: a mantissa below [B * 2 ^ (- e)] is shifted
    to an exponent that is still at most 0. *)
Lemma shr_fexp_shifted (m e B : Z) :
  0 <= m -> e <= 0 -> 0 <= B < 2 ^ 53 -> m <= B * 2 ^ (- e) ->
  exists mrs k,
    shr_fexp prec emax m e loc_Exact = (mrs, e + k) /\
    0 <= k /\ e + k <= 0 /\ shifted m k mrs.
Proof.
  intros Hm He HB Hle. unfold shr_fexp.
  destruct (shr_shifted m e (fexp prec emax (Zdigits2 m + e) - e) Hm) as (mrs & Heq & Hs).
  exists mrs, (Z.max 0 (fexp prec emax (Zdigits2 m + e) - e)).
  split; [exact Heq |]. split; [lia |]. split; [| exact Hs].
  assert (Hd : Zdigits2 m <= 53 - e).
  { apply Zdigits2_le; try lia.
    replace (53 - e) with (53 + - e) by lia. rewrite Z.pow_add_r by lia.
    assert (0 < 2 ^ (- e)) by (apply Z.pow_pos_nonneg; lia). nia. }
  pose proof (fexp_le_0 (Zdigits2 m + e) ltac:(lia)). lia.
Qed.

Lemma round_nearest_even_cases (mrs : shr_record) :
  round_nearest_even (shr_m mrs) (loc_of_shr_record mrs) = shr_m mrs \/
  (round_nearest_even (shr_m mrs) (loc_of_shr_record mrs) = shr_m mrs + 1 /\
   shr_r mrs = true).
Proof.
  destruct mrs as [m [] []]; cbn; destruct (Z.even m); auto.
Qed.

(** A mantissa below [K * 2 ^ k], shifted by [k] and rounded to nearest,
    is not above [K]. *)
Lemma shifted_rounded_le (m k K : Z) (mrs : shr_record) :
  0 <= m -> 0 <= k -> m <= K * 2 ^ k -> shifted m k mrs ->
  0 <= shr_m mrs <= K /\
  0 <= round_nearest_even (shr_m mrs) (loc_of_shr_record mrs) <= K.
Proof.
  intros Hm Hk Hle [Hdiv Hinexact].
  assert (P : 0 < 2 ^ k) by (apply Z.pow_pos_nonneg; lia).
  assert (H0 : 0 <= m / 2 ^ k) by (apply Z.div_pos; lia).
  assert (H1 : m / 2 ^ k <= K).
  { apply Z.div_le_upper_bound; lia. }
  split; [lia |].
  destruct (round_nearest_even_cases mrs) as [-> | [-> Hr]]; [lia |].
  assert (Hne : m mod 2 ^ k <> 0) by auto.
  assert (m <> K * 2 ^ k).
  { intros ->. rewrite Z.mod_mul in Hne by lia. congruence. }
  assert (m / 2 ^ k < K) by (apply Z.div_lt_upper_bound; lia).
  lia.
Qed.

Lemma pow2_split (e k : Z) :
  0 <= k -> e + k <= 0 -> 2 ^ (- e) = 2 ^ (- (e + k)) * 2 ^ k.
Proof.
  intros Hk He. rewrite <- Z.pow_add_r by lia. f_equal. lia.
Qed.

(** Rounding to nearest does not cross an integer below 2^53: an exact
    value of at most [B] rounds to a float of at most [B]. *)
Lemma binary_round_aux_within (mx : positive) (ex B : Z) :
  0 <= B < 2 ^ 53 -> ex <= 0 -> Zpos mx <= B * 2 ^ (- ex) ->
  within B (binary_round_aux prec emax false (Zpos mx) ex loc_Exact).
Proof.
  intros HB Hex Hle. unfold binary_round_aux.
  destruct (shr_fexp_shifted (Zpos mx) ex B ltac:(lia) Hex HB Hle)
    as (mrs1 & k1 & -> & Hk1 & He1 & Hs1).
  rewrite (pow2_split ex k1 Hk1 He1), Z.mul_assoc in Hle.
  destruct (shifted_rounded_le _ _ _ _ (Pos2Z.is_nonneg mx) Hk1 Hle Hs1) as [_ Hm2].
  set (m2 := round_nearest_even (shr_m mrs1) (loc_of_shr_record mrs1)) in *.
  destruct (shr_fexp_shifted m2 (ex + k1) B (proj1 Hm2) He1 HB (proj2 Hm2))
    as (mrs2 & k2 & -> & Hk2 & He2 & Hs2).
  assert (Hle2 : m2 <= B * 2 ^ (- (ex + k1 + k2)) * 2 ^ k2).
  { rewrite <- Z.mul_assoc, <- (pow2_split (ex + k1) k2 Hk2 He2). lia. }
  destruct (shifted_rounded_le _ _ _ _ (proj1 Hm2) Hk2 Hle2 Hs2) as [Hm3 _].
  destruct (shr_m mrs2) as [| m3 | m3]; cbn [within]; try lia.
  replace (ex + k1 + k2 <=? emax - prec) with true
    by (symmetry; apply Z.leb_le; unfold emax, prec; lia).
  cbn [within]. lia.
Qed.

Lemma within_weaken (B B' : Z) (x : spec_float) :
  B <= B' -> within B x -> within B' x.
Proof.
  intros HB. destruct x as [s | s | | [] m e]; cbn; auto.
  intros [He Hm]. split; [exact He |].
  assert (0 < 2 ^ (- e)) by (apply Z.pow_pos_nonneg; lia). nia.
Qed.

(** *** Products and sums *)

Lemma SFmul_within (Bx By : Z) (x y : spec_float) :
  0 <= Bx -> 0 <= By -> Bx * By < 2 ^ 53 ->
  within Bx x -> within By y -> within (Bx * By) (SFmul prec emax x y).
Proof.
  intros HBx HBy HB Hx Hy.
  destruct x as [sx | sx | | [] mx ex]; cbn in Hx; try contradiction;
    destruct y as [sy | sy | | [] my ey]; cbn in Hy; try contradiction;
    try exact I.
  destruct Hx as [Hex Hmx], Hy as [Hey Hmy].
  cbn [SFmul xorb]. apply binary_round_aux_within; try lia.
  replace (- (ex + ey)) with (- ex + - ey) by lia.
  rewrite Z.pow_add_r, Pos2Z.inj_mul by lia.
  assert (0 < 2 ^ (- ex)) by (apply Z.pow_pos_nonneg; lia).
  assert (0 < 2 ^ (- ey)) by (apply Z.pow_pos_nonneg; lia).
  replace (Bx * By * (2 ^ (- ex) * 2 ^ (- ey))) with ((Bx * 2 ^ (- ex)) * (By * 2 ^ (- ey))) by ring.
  apply Z.mul_le_mono_nonneg; lia.
Qed.

Lemma Pos_iter_xO (m d : positive) :
  Zpos (Pos.iter xO m d) = Zpos m * 2 ^ Zpos d.
Proof.
  rewrite Pos2Nat.inj_iter, <- (positive_nat_Z d).
  induction (Pos.to_nat d) as [| n IH].
  - cbn. lia.
  - rewrite Nat2Z.inj_succ, Z.pow_succ_r by lia. cbn [nat_rect].
    rewrite Pos2Z.inj_xO, IH. ring.
Qed.

(** Aligning a mantissa to a smaller exponent keeps its value. *)
Lemma shl_align_spec (mx : positive) (ex ex' : Z) :
  exists m', shl_align mx ex ex' = (m', Z.min ex ex') /\
             Zpos m' = Zpos mx * 2 ^ (ex - Z.min ex ex').
Proof.
  unfold shl_align. destruct (ex' - ex) as [| d | d] eqn:E.
  - exists mx. split; [f_equal; lia |].
    replace (ex - Z.min ex ex') with 0 by lia. lia.
  - exists mx. split; [f_equal; lia |].
    replace (ex - Z.min ex ex') with 0 by lia. lia.
  - exists (Pos.iter xO mx d). split; [f_equal; lia |].
    rewrite Pos_iter_xO. f_equal. f_equal. lia.
Qed.

Lemma SFadd_within (Bx By : Z) (x y : spec_float) :
  0 <= Bx -> 0 <= By -> Bx + By < 2 ^ 53 ->
  within Bx x -> within By y -> within (Bx + By) (SFadd prec emax x y).
Proof.
  intros HBx HBy HB Hx Hy.
  destruct x as [sx | sx | | [] mx ex] eqn:Ex; cbn in Hx; try contradiction;
    destruct y as [sy | sy | | [] my ey] eqn:Ey; cbn in Hy; try contradiction.
  - cbn. destruct sx, sy; exact I.
  - cbn [SFadd]. apply within_weaken with By; [lia | exact Hy].
  - cbn [SFadd]. apply within_weaken with Bx; [lia | exact Hx].
  - destruct Hx as [Hex Hmx], Hy as [Hey Hmy]. cbn [SFadd].
    destruct (shl_align_spec mx ex (Z.min ex ey)) as (a & -> & Ha).
    destruct (shl_align_spec my ey (Z.min ex ey)) as (b & -> & Hb).
    cbn [fst cond_Zopp Z.add binary_normalize]. unfold binary_round.
    destruct (shl_align_spec (a + b) (Z.min ex ey)
                (fexp prec emax (Zpos (digits2_pos (a + b)) + Z.min ex ey)))
      as (c & -> & Hc).
    set (ez := Z.min ex ey) in *.
    set (ez' := Z.min ez _) in *.
    replace (Z.min ex ez) with ez in Ha by lia.
    replace (Z.min ey ez) with ez in Hb by lia.
    apply binary_round_aux_within; try lia.
    rewrite Hc, Pos2Z.inj_add, Ha, Hb.
    assert (Px : 2 ^ (- ez') = 2 ^ (- ex) * 2 ^ (ex - ez) * 2 ^ (ez - ez')).
    { rewrite <- !Z.pow_add_r by lia. f_equal. lia. }
    assert (Py : 2 ^ (- ez') = 2 ^ (- ey) * 2 ^ (ey - ez) * 2 ^ (ez - ez')).
    { rewrite <- !Z.pow_add_r by lia. f_equal. lia. }
    assert (0 < 2 ^ (ex - ez)) by (apply Z.pow_pos_nonneg; lia).
    assert (0 < 2 ^ (ey - ez)) by (apply Z.pow_pos_nonneg; lia).
    assert (0 < 2 ^ (ez - ez')) by (apply Z.pow_pos_nonneg; lia).
    assert (H2 : Zpos mx * (2 ^ (ex - ez) * 2 ^ (ez - ez')) <= Bx * 2 ^ (- ez')).
    { rewrite Px.
      replace (Bx * (2 ^ (- ex) * 2 ^ (ex - ez) * 2 ^ (ez - ez')))
        with ((Bx * 2 ^ (- ex)) * (2 ^ (ex - ez) * 2 ^ (ez - ez'))) by ring.
      apply Z.mul_le_mono_nonneg_r; nia. }
    assert (H3 : Zpos my * (2 ^ (ey - ez) * 2 ^ (ez - ez')) <= By * 2 ^ (- ez')).
    { rewrite Py.
      replace (By * (2 ^ (- ey) * 2 ^ (ey - ez) * 2 ^ (ez - ez')))
        with ((By * 2 ^ (- ey)) * (2 ^ (ey - ez) * 2 ^ (ez - ez'))) by ring.
      apply Z.mul_le_mono_nonneg_r; nia. }
    lia.
Qed.

(** *** From floats to bounds and back *)

(** The mantissa of a float has at most 53 bits. *)
Lemma canonical_bound (m : positive) (e : Z) :
  bounded prec emax m e = true -> Zpos m < 2 ^ 53.
Proof.
  unfold bounded, canonical_mantissa. intros H.
  apply andb_true_iff in H as [H _]. apply Z.eqb_eq in H.
  unfold fexp, emin, prec, emax in H.
  pose proof (digits2_pos_upper m) as U.
  assert (D : Zpos (digits2_pos m) <= 53) by lia.
  eapply Z.lt_le_trans; [exact U |]. apply Z.pow_le_mono_r; lia.
Qed.

(** A float [m] with [0 <= m <= 1] is a zero or a positive number of value
    at most 1. *)
Lemma unit_interval_within (m : float) :
  (0 <=? m)%float = true -> (m <=? 1)%float = true -> within 1 (Prim2SF m).
Proof.
  rewrite !leb_spec.
  change (Prim2SF 0) with (S754_zero false).
  change (Prim2SF 1) with (S754_finite false 4503599627370496 (-52)).
  pose proof (Prim2SF_valid m) as V. unfold SFleb.
  destruct (Prim2SF m) as [s | s | | s mm e].
  - intros _ _. exact I.
  - destruct s; cbn; discriminate.
  - cbn. discriminate.
  - destruct s; cbn -[Pos.compare_cont Z.compare within]; [discriminate |].
    intros _. cbn in V. apply canonical_bound in V.
    destruct (Z.compare_spec e (-52)) as [-> | Hlt | Hgt].
    + rewrite Pos.compare_cont_spec. cbn [Pos.switch_Eq].
      destruct (Pos.compare_spec mm 4503599627370496) as [E | H | H];
        [intros _ | intros _ | intros D; discriminate D].
      * subst mm. split; [lia |]. apply Z.leb_le. vm_compute. reflexivity.
      * apply Pos2Z.pos_lt_pos in H. split; [lia |].
        change (Zpos mm <= 4503599627370496). lia.
    + intros _. split; [lia |].
      assert (2 ^ 53 <= 2 ^ (- e)) by (apply Z.pow_le_mono_r; lia). lia.
    + discriminate.
Qed.

Lemma div_half_even_le (a b K : Z) :
  0 <= a -> 0 < b -> a <= K * b -> 0 <= div_half_even a b <= K.
Proof.
  intros Ha Hb Hle. unfold div_half_even.
  pose proof (Z.div_mod a b ltac:(lia)) as D.
  pose proof (Z.mod_pos_bound a b Hb) as R.
  assert (Q0 : 0 <= a / b) by (apply Z.div_pos; lia).
  assert (Q1 : a / b <= K) by (apply Z.div_le_upper_bound; lia).
  destruct (Z.compare_spec (2 * (a mod b)) b).
  - destruct (Z.even (a / b)); [lia |]. nia.
  - lia.
  - nia.
Qed.

Lemma hundredths_le (m : positive) (e : Z) :
  e <= 0 -> Zpos m <= 100 * 2 ^ (- e) -> 0 <= hundredths (Zpos m) e <= 10000.
Proof.
  intros He Hm. unfold hundredths.
  destruct (Z.leb_spec 0 e).
  - replace e with 0 in * by lia. cbn in Hm. rewrite Z.pow_0_r. lia.
  - apply div_half_even_le; lia.
Qed.

(** Every float [round(x, 2)] can return for [x] in [0, 100], the float
    nearest to [n / 100] for [n] from 1 to 10000, is in [0, 100]. *)
Lemma hundredths_floats_in_range :
  forallb (fun k => let r := float_of_ratio false (Pos.of_nat k) 100 in
                    (0 <=? r)%float && (r <=? 100)%float)
    (seq 1 (Z.to_nat 10000)) = true.
Proof. vm_compute. reflexivity. Qed.

Lemma float_of_ratio_100_range (n : positive) :
  Zpos n <= 10000 ->
  (0 <=? float_of_ratio false n 100)%float = true /\
  (float_of_ratio false n 100 <=? 100)%float = true.
Proof.
  intros Hn. pose proof hundredths_floats_in_range as H.
  rewrite forallb_forall in H.
  specialize (H (Pos.to_nat n)). rewrite Pos2Nat.id in H.
  apply andb_true_iff. apply H. apply in_seq. lia.
Qed.

(** [round(s, 2)] keeps a score of at most 100 in [0, 100]. *)
Lemma py_round2_range (s : float) :
  within 100 (Prim2SF s) ->
  (0 <=? py_round2 s)%float = true /\ (py_round2 s <=? 100)%float = true.
Proof.
  unfold py_round2. destruct (Prim2SF s) as [z | z | | neg m e] eqn:E; cbn [within];
    try contradiction.
  - intros _. rewrite !leb_spec, E. split; reflexivity.
  - destruct neg; [contradiction |]. intros [He Hm].
    pose proof (hundredths_le m e He Hm) as H.
    destruct (hundredths (Zpos m) e) as [| n | n].
    + split; reflexivity.
    + apply float_of_ratio_100_range. lia.
    + split; reflexivity.
Qed.

Lemma add_within (B C : Z) (s c : float) :
  0 <= B -> 0 <= C -> B + C < 2 ^ 53 ->
  within B (Prim2SF s) -> within C (Prim2SF c) -> within (B + C) (Prim2SF (s + c)%float).
Proof.
  intros. rewrite add_spec. apply SFadd_within; assumption.
Qed.

Lemma mul_within (B C : Z) (s c : float) :
  0 <= B -> 0 <= C -> B * C < 2 ^ 53 ->
  within B (Prim2SF s) -> within C (Prim2SF c) -> within (B * C) (Prim2SF (s * c)%float).
Proof.
  intros. rewrite mul_spec. apply SFmul_within; assumption.
Qed.

Lemma within_30 : within 30 (Prim2SF WEIGHTS.LocationMatch).
Proof. vm_compute. split; intros H; discriminate H. Qed.
Lemma within_40 : within 40 (Prim2SF WEIGHTS.RealEstateIncluded).
Proof. vm_compute. split; intros H; discriminate H. Qed.
Lemma within_20 : within 20 (Prim2SF WEIGHTS.SellerMotivation).
Proof. vm_compute. split; intros H; discriminate H. Qed.
Lemma within_10 : within 10 (Prim2SF WEIGHTS.HighCapacity).
Proof. vm_compute. split; intros H; discriminate H. Qed.

(** The running score is at most 30, 70, 90 and 100 after the four
    steps. *)
Lemma accumulated_score_within (listing : MergedListing) :
  (0 <=? MatchScore (geo_of listing))%float = true ->
  (MatchScore (geo_of listing) <=? 1)%float = true ->
  within 100 (Prim2SF (accumulated_score listing)).
Proof.
  intros H0 H1. pose proof (unit_interval_within _ H0 H1) as Hm.
  unfold accumulated_score.
  assert (S1 : within 30 (Prim2SF (add_location_score listing 0))).
  { unfold add_location_score. destruct (str_in _ _).
    - apply (add_within 0 30); try lia; [exact I |].
      apply (mul_within 30 1); try lia; [exact within_30 | exact Hm].
    - exact I. }
  set (s1 := add_location_score listing 0) in *.
  assert (S2 : within 70 (Prim2SF (add_real_estate_score listing s1))).
  { unfold add_real_estate_score. destruct (RealEstateIncluded _).
    - apply (add_within 30 40); try lia; [exact S1 | exact within_40].
    - apply within_weaken with 30; [lia | exact S1]. }
  set (s2 := add_real_estate_score listing s1) in *.
  assert (S3 : within 90 (Prim2SF (add_motivation_score listing s2))).
  { unfold add_motivation_score. destruct (SellerMotivation _).
    - apply (add_within 70 20); try lia; [exact S2 | exact within_20].
    - apply within_weaken with 70; [lia | exact S2]. }
  set (s3 := add_motivation_score listing s2) in *.
  unfold add_concept_score. destruct (_ || _).
  - apply (add_within 90 10); try lia; [exact S3 | exact within_10].
  - apply within_weaken with 90; [lia | exact S3].
Qed.

End ScoreRange.

(** C5: with the default weights, a listing whose match score is in
    [0.0, 1.0] gets an opportunity score in [0, 100]. *)
Theorem opportunity_score_range (listing : MergedListing) :
  (0 <=? MatchScore (geo_of listing)) = true ->
  (MatchScore (geo_of listing) <=? 1) = true ->
  (0 <=? calculate_opportunity_score listing) = true /\
  (calculate_opportunity_score listing <=? 100) = true.
Proof.
  intros H0 H1. apply py_round2_range, accumulated_score_within; assumption.
Qed.

(** A Hermosa listing with every signal set: 30 * 0.85 + 40 + 20 + 10. *)
Lemma opportunity_score_range_witness :
  (0 <=? calculate_opportunity_score (example_merged "Hermosa" 0.85 true true false true)) = true /\
  (calculate_opportunity_score (example_merged "Hermosa" 0.85 true true false true) <=? 100) = true.
Proof.
  apply (opportunity_score_range (example_merged "Hermosa" 0.85 true true false true));
    vm_compute; reflexivity.
Defined.

(** * Further properties

    What the code shows beyond the statements above: how the engine and its
    steps fail, what the classifier can return, what scores its results
    lead to, and how the filters, the counts and the sort work together. *)

(** ** The order of floats

    [<=?] and [<?] read on the keys of the sort: transitivity and the
    other facts of a total order, NaN apart. *)

Lemma SFcompare_nan_r (x : spec_float) : SFcompare x S754_nan = None.
Proof. destruct x; reflexivity. Qed.

Lemma float_ltb_key (a b : float) :
  (a <? b) = true <->
  Prim2SF a <> S754_nan /\ Prim2SF b <> S754_nan /\
  lex_compare (descending_key (Prim2SF b)) (descending_key (Prim2SF a)) = Lt.
Proof.
  rewrite ltb_spec. unfold SFltb.
  destruct (Prim2SF a) as [sa | sa | | sa ma ea] eqn:Ea.
  3: { cbn. split; [discriminate | intros [H _]; congruence]. }
  all: destruct (Prim2SF b) as [sb | sb | | sb mb eb] eqn:Eb.
  all: try (rewrite SFcompare_nan_r; split; [discriminate | intros (_ & H & _); congruence]).
  all: rewrite SFcompare_descending_key by discriminate.
  all: destruct (lex_compare _ _);
    (split;
     [intros H; try discriminate H; repeat split; discriminate
     |intros (_ & _ & H); try discriminate H; reflexivity]).
Qed.

Lemma float_leb_key (a b : float) :
  (a <=? b) = true <->
  Prim2SF a <> S754_nan /\ Prim2SF b <> S754_nan /\
  lex_compare (descending_key (Prim2SF b)) (descending_key (Prim2SF a)) <> Gt.
Proof.
  rewrite leb_spec. unfold SFleb.
  destruct (Prim2SF a) as [sa | sa | | sa ma ea] eqn:Ea.
  3: { cbn. split; [discriminate | intros [H _]; congruence]. }
  all: destruct (Prim2SF b) as [sb | sb | | sb mb eb] eqn:Eb.
  all: try (rewrite SFcompare_nan_r; split; [discriminate | intros (_ & H & _); congruence]).
  all: rewrite SFcompare_descending_key by discriminate.
  all: destruct (lex_compare _ _);
    (split;
     [intros H; try discriminate H; repeat split; discriminate
     |intros (_ & _ & H); try congruence; reflexivity]).
Qed.

Lemma float_leb_trans (a b c : float) :
  (a <=? b) = true -> (b <=? c) = true -> (a <=? c) = true.
Proof.
  rewrite !float_leb_key. intros (Ha & Hb & Hab) (_ & Hc & Hbc).
  repeat split; auto. eapply lex_compare_trans; eassumption.
Qed.

Lemma float_ltb_not_leb (a b : float) :
  (a <? b) = true -> (b <=? a) = false.
Proof.
  intros H. destruct (b <=? a) eqn:E; [| reflexivity].
  apply float_ltb_key in H. apply float_leb_key in E.
  destruct H as (_ & _ & H), E as (_ & _ & E).
  rewrite lex_compare_flip, H in E. cbn in E. congruence.
Qed.

Lemma float_ltb_negb_leb (a b : float) :
  Prim2SF a <> S754_nan -> Prim2SF b <> S754_nan ->
  (b <? a) = negb (a <=? b).
Proof.
  intros Ha Hb.
  destruct (a <=? b) eqn:L, (b <? a) eqn:T; try reflexivity; exfalso.
  - rewrite (float_ltb_not_leb _ _ T) in L. discriminate L.
  - assert (T' : (b <? a) = true); [| congruence].
    apply float_ltb_key. repeat split; auto.
    destruct (lex_compare (descending_key (Prim2SF a)) (descending_key (Prim2SF b))) eqn:E;
      try reflexivity; exfalso;
      (assert (L' : (a <=? b) = true);
       [apply float_leb_key; repeat split; auto; rewrite lex_compare_flip, E; discriminate
       |congruence]).
Qed.

Lemma float_leb_not_nan (a b : float) :
  (a <=? b) = true -> Prim2SF a <> S754_nan /\ Prim2SF b <> S754_nan.
Proof. intros H. apply float_leb_key in H. tauto. Qed.

Lemma float_ltb_leb (a b : float) : (a <? b) = true -> (a <=? b) = true.
Proof.
  rewrite float_ltb_key, float_leb_key. intros (Ha & Hb & H). repeat split; auto. congruence.
Qed.

(** ** How the engine and its steps fail *)

(** X3: the engine returns on no input: it raises [TypeError] on a list
    with at least one listing and [KeyError] on the empty list, where
    [sort_values] names a column of a frame that has none. *)
Theorem run_acquisition_engine_never_returns (data : list RawListing) :
  run_acquisition_engine data
  = Raise match data with
          | [] => KeyError
          | _ :: _ => TypeError
          end.
Proof.
  destruct data as [| listing rest]; [reflexivity |].
  unfold run_acquisition_engine. cbn [for_each_listing].
  rewrite loop_body_raises. reflexivity.
Qed.


Lemma str_remove_app (c : ascii) (s t : string) :
  str_remove c (s ++ t) = str_remove c s ++ str_remove c t.
Proof.
  induction s as [| a s IH]; [reflexivity |].
  cbn [str_remove append]. destruct (Ascii.eqb a c); rewrite IH; reflexivity.
Qed.

(** The currency text with its formatting removed, as the [try] block
    passes it to [float()]. *)
Lemma unformat_insert (c : ascii) (s t : string) :
  c = "$"%char \/ c = ","%char ->
  str_remove "," (str_remove "$" (s ++ String c t))
  = str_remove "," (str_remove "$" (s ++ t)).
Proof.
  intros [-> | ->]; rewrite !str_remove_app; cbn [str_remove Ascii.eqb];
    cbn; reflexivity.
Qed.

(** X11: a dollar sign or a comma anywhere in the price or the cash-flow
    text changes nothing: the cap rate, or the exception, is that of the text
    without it. *)
Theorem cap_rate_ignores_separators (listing : RawListing) (geo_data : ClassificationResult)
    (nlp_data : FeatureSignals) (s t : string) :
  let cap_rate_of l := cap_rate {| listing_of := l; geo_of := geo_data; nlp_of := nlp_data |} in
  cap_rate_of (with_price (s ++ "$" ++ t) listing) = cap_rate_of (with_price (s ++ t) listing) /\
  cap_rate_of (with_price (s ++ "," ++ t) listing) = cap_rate_of (with_price (s ++ t) listing) /\
  cap_rate_of (with_cash_flow (s ++ "$" ++ t) listing)
  = cap_rate_of (with_cash_flow (s ++ t) listing) /\
  cap_rate_of (with_cash_flow (s ++ "," ++ t) listing)
  = cap_rate_of (with_cash_flow (s ++ t) listing).
Proof.
  cbv zeta. unfold cap_rate.
  cbn [listing_of with_price with_cash_flow Price CashFlow append].
  rewrite !unformat_insert by auto. repeat split.
Qed.

(** ** What the classifier returns *)

Lemma automated_geocoding_cases (loc : pyval) (lat long : float) :
  automated_geocoding loc lat long = {| Neighborhood := "Logan Square"; MatchScore := 1.0 |} \/
  automated_geocoding loc lat long = {| Neighborhood := "Avondale"; MatchScore := 0.9 |} \/
  automated_geocoding loc lat long = {| Neighborhood := "Hermosa"; MatchScore := 0.85 |} \/
  automated_geocoding loc lat long = {| Neighborhood := "Outside Target"; MatchScore := 0.0 |}.
Proof.
  unfold automated_geocoding.
  repeat match goal with |- context [if ?c then _ else _] => destruct c end; auto.
Qed.

(** X4: the classifier returns a target neighborhood or "Outside Target",
    with a match score in [0, 1] that is positive exactly for the target
    neighborhoods, and it does not look at the location text. *)
Theorem classifier_results (loc : pyval) (lat long : float) :
  let r := automated_geocoding loc lat long in
  (In (Neighborhood r) TARGET_NEIGHBORHOODS \/ Neighborhood r = "Outside Target") /\
  (0 <=? MatchScore r) = true /\
  (MatchScore r <=? 1) = true /\
  (In (Neighborhood r) TARGET_NEIGHBORHOODS <-> (0 <? MatchScore r) = true) /\
  (forall loc' : pyval, automated_geocoding loc' lat long = r).
Proof.
  cbv zeta.
  assert (L : forall loc' : pyval,
             automated_geocoding loc' lat long = automated_geocoding loc lat long)
    by reflexivity.
  destruct (automated_geocoding_cases loc lat long) as [E | [E | [E | E]]];
    rewrite E in *; cbn [Neighborhood MatchScore TARGET_NEIGHBORHOODS In];
    (split; [| split; [reflexivity | split; [reflexivity | split; [| exact L]]]]).
  - auto.
  - split; [reflexivity | auto].
  - auto.
  - split; [reflexivity | auto].
  - auto.
  - split; [reflexivity | auto 6].
  - auto.
  - split.
    + intros [H | [H | [H | []]]]; discriminate H.
    + intros H. discriminate H.
Qed.

(** The neighborhood returned, in terms of the three conditions of the
    [if] chain. *)
Lemma neighborhood_by_conditions (loc : pyval) (lat long : float) :
  let n := Neighborhood (automated_geocoding loc lat long) in
  let logan := (41.92 <=? lat) && (lat <=? 41.94) && (-87.73 <=? long) && (long <=? -87.70) in
  let avondale := (41.92 <=? lat) && (lat <=? 41.93) && (-87.74 <=? long) && (long <=? -87.72) in
  let hermosa := (41.90 <=? lat) && (lat <=? 41.92) && (-87.75 <=? long) && (long <=? -87.73) in
  (n = "Logan Square" <-> logan = true) /\
  (n = "Avondale" <-> negb logan && avondale = true) /\
  (n = "Hermosa" <-> negb logan && negb avondale && hermosa = true).
Proof.
  cbv zeta. unfold automated_geocoding.
  destruct ((41.92 <=? lat) && (lat <=? 41.94) && (-87.73 <=? long) && (long <=? -87.70));
    destruct ((41.92 <=? lat) && (lat <=? 41.93) && (-87.74 <=? long) && (long <=? -87.72));
    destruct ((41.90 <=? lat) && (lat <=? 41.92) && (-87.75 <=? long) && (long <=? -87.73));
    cbn [Neighborhood negb andb]; repeat split; intros H; try reflexivity; discriminate H.
Qed.

Lemma avondale_region (lat long : float) :
  negb ((41.92 <=? lat) && (lat <=? 41.94) && (-87.73 <=? long) && (long <=? -87.70))
  && ((41.92 <=? lat) && (lat <=? 41.93) && (-87.74 <=? long) && (long <=? -87.72))
  = (41.92 <=? lat) && (lat <=? 41.93) && (-87.74 <=? long) && (long <? -87.73).
Proof.
  destruct (41.92 <=? lat) eqn:A1; [| reflexivity].
  destruct (lat <=? 41.93) eqn:B2; [| cbn [andb]; apply andb_false_r].
  destruct (-87.74 <=? long) eqn:B3; [| cbn [andb]; apply andb_false_r].
  assert (A2 : (lat <=? 41.94) = true) by (apply (float_leb_trans _ _ _ B2); reflexivity).
  rewrite A2. cbn [andb].
  apply float_leb_not_nan in B3 as [_ Nlong].
  assert (N73 : Prim2SF (-87.73) <> S754_nan) by (vm_compute; discriminate).
  rewrite (float_ltb_negb_leb (-87.73) long N73 Nlong).
  destruct (-87.73 <=? long) eqn:A3; cbn [andb negb].
  - destruct (long <=? -87.72) eqn:B4; [| apply andb_false_r].
    assert (A4 : (long <=? -87.70) = true) by (apply (float_leb_trans _ _ _ B4); reflexivity).
    rewrite A4. reflexivity.
  - assert (T : (long <? -87.73) = true).
    { rewrite (float_ltb_negb_leb (-87.73) long N73 Nlong), A3. reflexivity. }
    apply float_ltb_leb in T.
    assert (B4 : (long <=? -87.72) = true) by (apply (float_leb_trans _ _ _ T); reflexivity).
    exact B4.
Qed.

Lemma hermosa_region (lat long : float) :
  negb ((41.92 <=? lat) && (lat <=? 41.94) && (-87.73 <=? long) && (long <=? -87.70))
  && negb ((41.92 <=? lat) && (lat <=? 41.93) && (-87.74 <=? long) && (long <=? -87.72))
  && ((41.90 <=? lat) && (lat <=? 41.92) && (-87.75 <=? long) && (long <=? -87.73))
  = (41.90 <=? lat) && (lat <=? 41.92) && (-87.75 <=? long) && (long <=? -87.73)
    && ((lat <? 41.92) || (long <? -87.74)).
Proof.
  destruct (41.90 <=? lat) eqn:C1; [| cbn [andb]; apply andb_false_r].
  destruct (lat <=? 41.92) eqn:C2; [| cbn [andb]; apply andb_false_r].
  destruct (-87.75 <=? long) eqn:C3; [| cbn [andb]; apply andb_false_r].
  destruct (long <=? -87.73) eqn:C4; [| cbn [andb]; apply andb_false_r].
  assert (A2 : (lat <=? 41.94) = true) by (apply (float_leb_trans _ _ _ C2); reflexivity).
  assert (B2 : (lat <=? 41.93) = true) by (apply (float_leb_trans _ _ _ C2); reflexivity).
  assert (A4 : (long <=? -87.70) = true) by (apply (float_leb_trans _ _ _ C4); reflexivity).
  assert (B4 : (long <=? -87.72) = true) by (apply (float_leb_trans _ _ _ C4); reflexivity).
  rewrite A2, B2, A4, B4. cbn [andb]. rewrite !andb_true_r.
  apply float_leb_not_nan in C1 as [_ Nlat]. apply float_leb_not_nan in C3 as [_ Nlong].
  assert (N92 : Prim2SF 41.92 <> S754_nan) by (vm_compute; discriminate).
  assert (N74 : Prim2SF (-87.74) <> S754_nan) by (vm_compute; discriminate).
  rewrite (float_ltb_negb_leb 41.92 lat N92 Nlat), (float_ltb_negb_leb (-87.74) long N74 Nlong).
  destruct (41.92 <=? lat) eqn:A1; [| reflexivity]. cbn [andb negb orb].
  destruct (-87.74 <=? long) eqn:B3; cbn [negb]; [apply andb_false_r |].
  destruct (-87.73 <=? long) eqn:A3; [| reflexivity].
  assert (B3' : (-87.74 <=? long) = true).
  { apply float_leb_trans with (-87.73); [reflexivity | exact A3]. }
  congruence.
Qed.

(** X13: where each neighborhood is returned.  Logan Square has its whole
    box.  The first rule takes from the Avondale box the points of longitude
    -87.73 and more; the first two rules take from the Hermosa box the
    points of latitude 41.92 whose longitude is -87.74 or more. *)
Theorem effective_regions (loc : pyval) (lat long : float) :
  let n := Neighborhood (automated_geocoding loc lat long) in
  (n = "Logan Square" <->
   (41.92 <=? lat) && (lat <=? 41.94) && (-87.73 <=? long) && (long <=? -87.70) = true) /\
  (n = "Avondale" <->
   (41.92 <=? lat) && (lat <=? 41.93) && (-87.74 <=? long) && (long <? -87.73) = true) /\
  (n = "Hermosa" <->
   (41.90 <=? lat) && (lat <=? 41.92) && (-87.75 <=? long) && (long <=? -87.73)
   && ((lat <? 41.92) || (long <? -87.74)) = true).
Proof.
  cbv zeta. rewrite <- avondale_region, <- hermosa_region.
  apply neighborhood_by_conditions.
Qed.

(** ** The scores of classified listings *)

(** X5: for a listing classified from its coordinates, whatever they and the
    description are, the opportunity score is in [0, 100], the final
    [round] changes nothing, and the guard of the location step changes
    nothing either: the step adds the location weight times the match
    score. *)
Theorem classified_score (loc : pyval) (listing : RawListing) :
  let m := classified loc listing in
  (0 <=? calculate_opportunity_score m) = true /\
  (calculate_opportunity_score m <=? 100) = true /\
  calculate_opportunity_score m = accumulated_score m /\
  add_location_score m 0 = 0 + WEIGHTS.LocationMatch * MatchScore (geo_of m).
Proof.
  cbv zeta. unfold classified.
  destruct (automated_nlp_analysis (Description listing)) as [re mot old high].
  destruct (automated_geocoding_cases loc (Lat listing) (Long listing))
    as [E | [E | [E | E]]]; rewrite E;
    destruct re, mot, old, high; repeat split; vm_compute; reflexivity.
Qed.

Lemma pipeline_row_classified (r : ScoredListing) :
  pipeline_row r ->
  exists loc listing,
    merged_of r = classified loc listing /\
    OpportunityScore r = calculate_opportunity_score (classified loc listing) /\
    cap_rate (classified loc listing) = Ok (CapRate r).
Proof.
  intros (loc & listing & H). exists loc, listing.
  unfold process_listing in H. fold (classified loc listing) in H.
  destruct (cap_rate (classified loc listing)) as [cap | e]; [| discriminate H].
  cbn [bind] in H. injection H as <-. auto.
Qed.

(** Without real estate a classified listing scores at most 60. *)
Lemma classified_score_without_real_estate (loc : pyval) (listing : RawListing) :
  RealEstateIncluded (nlp_of (classified loc listing)) = false ->
  (calculate_opportunity_score (classified loc listing) <=? 60) = true.
Proof.
  unfold classified. cbn [nlp_of].
  destruct (automated_nlp_analysis (Description listing)) as [re mot old high].
  cbn [RealEstateIncluded]. intros ->.
  destruct (automated_geocoding_cases loc (Lat listing) (Long listing))
    as [E | [E | [E | E]]]; rewrite E;
    destruct mot, old, high; vm_compute; reflexivity.
Qed.

Lemma filter_all {A : Type} (f : A -> bool) (l : list A) :
  (forall x, In x l -> f x = true) -> filter f l = l.
Proof.
  induction l as [| x l IH]; intros H; [reflexivity |].
  cbn [filter]. rewrite (H x) by (left; reflexivity).
  f_equal. apply IH. intros y Hy. apply H. right. exact Hy.
Qed.

(** X6: a classified listing without real estate scores at most 60, so on
    the rows of classified listings, with a minimum score above 60 (the
    slider starts at 70), the "Real Estate Included Only" box filters
    nothing out. *)
Theorem real_estate_filter_redundant (rows : list ScoredListing)
    (selected_hoods : list string) (min_score min_cap_rate : float) :
  Forall pipeline_row rows ->
  (60 <? min_score) = true ->
  df_filtered selected_hoods min_score true min_cap_rate (map select_columns rows)
  = df_filtered selected_hoods min_score false min_cap_rate (map select_columns rows).
Proof.
  intros Hrows Hmin. unfold df_filtered. f_equal.
  apply filter_all. intros x Hx.
  unfold filter_min_score, filter_neighborhood in Hx.
  apply filter_In in Hx as [Hx Hscore]. apply filter_In in Hx as [Hx _].
  apply in_map_iff in Hx as (r & <- & Hr).
  rewrite Forall_forall in Hrows. apply Hrows in Hr.
  apply pipeline_row_classified in Hr as (loc & listing & Hm & Hs & _).
  cbn [select_columns DisplayRow.RealEstateIncluded DisplayRow.OpportunityScore] in *.
  rewrite Hm, Hs in *.
  destruct (RealEstateIncluded (nlp_of (classified loc listing))) eqn:E; [reflexivity |].
  apply classified_score_without_real_estate in E.
  pose proof (float_leb_trans _ _ _ Hscore E) as H.
  rewrite (float_ltb_not_leb _ _ Hmin) in H. discriminate H.
Qed.

(** The row of the example listing, at the default settings. *)
Lemma real_estate_filter_redundant_witness :
  exists r,
    process_listing example_listing
      (automated_geocoding (PyStr (Location example_listing))
         (Lat example_listing) (Long example_listing)) = Ok r /\
    df_filtered TARGET_NEIGHBORHOODS 70 true 0 [select_columns r]
    = df_filtered TARGET_NEIGHBORHOODS 70 false 0 [select_columns r].
Proof.
  eexists. split; [vm_compute; reflexivity |].
  apply (real_estate_filter_redundant [_] TARGET_NEIGHBORHOODS 70 0).
  - constructor; [| constructor].
    exists (PyStr (Location example_listing)), example_listing.
    vm_compute. reflexivity.
  - reflexivity.
Defined.

(** ** The text features under more text *)

Lemma lower_ascii_idempotent (c : ascii) :
  lower_ascii (lower_ascii c) = lower_ascii c.
Proof. destruct c as [[] [] [] [] [] [] [] []]; reflexivity. Qed.

Lemma str_lower_idempotent (s : string) :
  str_lower (str_lower s) = str_lower s.
Proof.
  induction s as [| c s IH]; [reflexivity |].
  cbn [str_lower]. rewrite lower_ascii_idempotent, IH. reflexivity.
Qed.

Lemma str_lower_app (s t : string) :
  str_lower (s ++ t) = str_lower s ++ str_lower t.
Proof.
  induction s as [| c s IH]; [reflexivity |].
  cbn [str_lower append]. rewrite IH. reflexivity.
Qed.

Lemma str_append_assoc (s t u : string) : (s ++ t) ++ u = s ++ (t ++ u).
Proof.
  induction s as [| c s IH]; [reflexivity |]. cbn [append]. rewrite IH. reflexivity.
Qed.

Lemma occurs_app (p s before after : string) :
  occurs p s -> occurs p (before ++ s ++ after).
Proof.
  intros (b & a & ->). exists (before ++ b), (a ++ after).
  rewrite !str_append_assoc. reflexivity.
Qed.

Lemma re_search_app (alternatives : list string) (s before after : string) :
  re_search alternatives s = true ->
  re_search alternatives (before ++ s ++ after) = true.
Proof.
  rewrite !re_search_occurs. intros (p & Hp & H).
  exists p. split; [exact Hp | apply occurs_app; exact H].
Qed.

(** X7: more text around a description clears no signal, and the signals
    of a description are those of its lower-cased form. *)
Theorem nlp_signals_monotone (description before after : string) :
  let inner := automated_nlp_analysis description in
  let outer := automated_nlp_analysis (before ++ description ++ after) in
  (RealEstateIncluded inner = true -> RealEstateIncluded outer = true) /\
  (SellerMotivation inner = true -> SellerMotivation outer = true) /\
  (OldEquipment inner = true -> OldEquipment outer = true) /\
  (HighCapacity inner = true -> HighCapacity outer = true) /\
  automated_nlp_analysis (str_lower description) = inner.
Proof.
  cbv zeta. unfold automated_nlp_analysis.
  cbn [RealEstateIncluded SellerMotivation OldEquipment HighCapacity].
  rewrite !str_lower_app, str_lower_idempotent.
  repeat split; apply re_search_app.
Qed.

(** ** The filters as one selection *)

Lemma filter_filter_and {A : Type} (f g : A -> bool) (l : list A) :
  filter f (filter g l) = filter (fun x => g x && f x) l.
Proof.
  induction l as [| x l IH]; [reflexivity |].
  cbn [filter]. destruct (g x); cbn [filter andb]; rewrite IH; reflexivity.
Qed.

Lemma df_filtered_filter (selected_hoods : list string) (min_score : float)
    (re_filter : bool) (min_cap_rate : float) (df : list DisplayRow.t) :
  df_filtered selected_hoods min_score re_filter min_cap_rate df
  = filter (row_qualifies selected_hoods min_score re_filter min_cap_rate) df.
Proof.
  unfold df_filtered, filter_min_cap_rate, filter_real_estate, filter_min_score,
    filter_neighborhood.
  destruct re_filter; rewrite !filter_filter_and; apply filter_ext;
    intros r; unfold row_qualifies; cbn [andb]; rewrite ?andb_assoc, ?andb_true_r; reflexivity.
Qed.

Lemma filter_idempotent {A : Type} (f : A -> bool) (l : list A) :
  filter f (filter f l) = filter f l.
Proof.
  rewrite filter_filter_and. apply filter_ext. intros x. apply andb_diag.
Qed.

(** X12: [df_filtered] is one selection of the frame: it keeps, in their
    order, the rows that meet every criterion (the real-estate one only
    when the box is checked), and filtering its result again changes
    nothing. *)
Theorem df_filtered_conjunction (selected_hoods : list string) (min_score : float)
    (re_filter : bool) (min_cap_rate : float) (df : list DisplayRow.t) :
  (forall r : DisplayRow.t,
      In r (df_filtered selected_hoods min_score re_filter min_cap_rate df) <->
      In r df /\
      In (DisplayRow.Neighborhood r) selected_hoods /\
      (min_score <=? DisplayRow.OpportunityScore r) = true /\
      (re_filter = true -> DisplayRow.RealEstateIncluded r = true) /\
      (min_cap_rate <=? DisplayRow.CapRate r) = true) /\
  df_filtered selected_hoods min_score re_filter min_cap_rate df
  = filter (row_qualifies selected_hoods min_score re_filter min_cap_rate) df /\
  df_filtered selected_hoods min_score re_filter min_cap_rate
    (df_filtered selected_hoods min_score re_filter min_cap_rate df)
  = df_filtered selected_hoods min_score re_filter min_cap_rate df.
Proof.
  split; [| split].
  - intros r. rewrite df_filtered_filter, filter_In. unfold row_qualifies.
    rewrite !andb_true_iff, str_in_In.
    destruct re_filter, (DisplayRow.RealEstateIncluded r); cbn; intuition congruence.
  - apply df_filtered_filter.
  - rewrite !df_filtered_filter. apply filter_idempotent.
Qed.

Lemma filter_filter_implied {A : Type} (f g : A -> bool) (l : list A) :
  (forall x, f x = true -> g x = true) ->
  filter f (filter g l) = filter f l.
Proof.
  intros H. rewrite filter_filter_and. apply filter_ext. intros x.
  destruct (f x) eqn:E; [rewrite (H x E); reflexivity | apply andb_false_r].
Qed.

(** X9: tightening a control refilters what is shown: a higher minimum
    score or cap rate, fewer neighborhoods, or the real-estate box give the
    rows of the current result that pass the new criterion, never a row
    that was not shown. *)
Theorem df_filtered_tightening (selected_hoods : list string) (min_score : float)
    (re_filter : bool) (min_cap_rate : float) (df : list DisplayRow.t) :
  (forall min_score' : float,
      (min_score <=? min_score') = true ->
      df_filtered selected_hoods min_score' re_filter min_cap_rate df
      = filter_min_score min_score'
          (df_filtered selected_hoods min_score re_filter min_cap_rate df)) /\
  (forall min_cap_rate' : float,
      (min_cap_rate <=? min_cap_rate') = true ->
      df_filtered selected_hoods min_score re_filter min_cap_rate' df
      = filter_min_cap_rate min_cap_rate'
          (df_filtered selected_hoods min_score re_filter min_cap_rate df)) /\
  (forall selected_hoods' : list string,
      incl selected_hoods' selected_hoods ->
      df_filtered selected_hoods' min_score re_filter min_cap_rate df
      = filter_neighborhood selected_hoods'
          (df_filtered selected_hoods min_score re_filter min_cap_rate df)) /\
  df_filtered selected_hoods min_score true min_cap_rate df
  = filter_real_estate (df_filtered selected_hoods min_score re_filter min_cap_rate df).
Proof.
  rewrite !df_filtered_filter.
  unfold filter_min_score, filter_min_cap_rate, filter_neighborhood, filter_real_estate.
  repeat split.
  - intros min_score' H. rewrite df_filtered_filter, filter_filter_and.
    apply filter_ext. intros r. unfold row_qualifies.
    destruct (min_score' <=? DisplayRow.OpportunityScore r) eqn:E;
      [rewrite (float_leb_trans _ _ _ H E) |];
      destruct (str_in _ _), (if re_filter then _ else _), (min_cap_rate <=? _);
      try destruct (min_score <=? DisplayRow.OpportunityScore r); reflexivity.
  - intros min_cap_rate' H. rewrite df_filtered_filter, filter_filter_and.
    apply filter_ext. intros r. unfold row_qualifies.
    destruct (min_cap_rate' <=? DisplayRow.CapRate r) eqn:E;
      [rewrite (float_leb_trans _ _ _ H E) |];
      destruct (str_in _ _), (if re_filter then _ else _), (min_score <=? _);
      try destruct (min_cap_rate <=? DisplayRow.CapRate r); reflexivity.
  - intros selected_hoods' H. rewrite df_filtered_filter, filter_filter_and.
    apply filter_ext. intros r. unfold row_qualifies.
    destruct (str_in (DisplayRow.Neighborhood r) selected_hoods') eqn:E.
    + assert (E' : str_in (DisplayRow.Neighborhood r) selected_hoods = true).
      { apply str_in_In. apply H. apply str_in_In. exact E. }
      rewrite E'.
      destruct (min_score <=? _), (if re_filter then _ else _), (min_cap_rate <=? _);
        reflexivity.
    + destruct (str_in (DisplayRow.Neighborhood r) selected_hoods), (min_score <=? _),
        (if re_filter then _ else _), (min_cap_rate <=? _); reflexivity.
  - rewrite filter_filter_and.
    apply filter_ext. intros r. unfold row_qualifies.
    destruct re_filter, (DisplayRow.RealEstateIncluded r), (str_in _ _), (min_score <=? _),
      (min_cap_rate <=? _); reflexivity.
Qed.

(** X10: "Real Estate Targets" is at most "Total Qualified Targets", which
    is at most the number of rows of the frame; with the real-estate box
    checked the two counts are equal. *)
Theorem real_estate_targets_le_total (selected_hoods : list string) (min_score : float)
    (re_filter : bool) (min_cap_rate : float) (df : list DisplayRow.t) :
  let shown := df_filtered selected_hoods min_score re_filter min_cap_rate df in
  (real_estate_targets shown <= total_qualified_targets shown)%nat /\
  (total_qualified_targets shown <= List.length df)%nat /\
  (re_filter = true -> real_estate_targets shown = total_qualified_targets shown).
Proof.
  cbv zeta. rewrite df_filtered_filter.
  set (shown := filter _ df). unfold total_qualified_targets, real_estate_targets.
  split; [| split].
  - destruct shown as [| r shown']; [lia | apply filter_length_le].
  - apply filter_length_le.
  - intros ->. destruct shown as [| r shown'] eqn:E; [reflexivity |].
    rewrite <- E. f_equal. apply filter_all. intros x Hx. subst shown.
    apply filter_In in Hx as [_ Hx]. unfold row_qualifies in Hx.
    destruct (DisplayRow.RealEstateIncluded x); [reflexivity |].
    destruct (str_in (DisplayRow.Neighborhood x) selected_hoods),
      (min_score <=? DisplayRow.OpportunityScore x), (min_cap_rate <=? DisplayRow.CapRate x);
      discriminate Hx.
Qed.

(** ** Ranking and filtering *)

Section SortAndFilter.
Context {A : Type}.
Variable cmp : A -> A -> comparison.
Hypothesis cmp_flip : forall x y, cmp y x = CompOpp (cmp x y).
Hypothesis cmp_trans :
  forall x y z, cmp x y <> Gt -> cmp y z <> Gt -> cmp x z <> Gt.

Lemma insert_stable_front (x : A) (l : list A) :
  Forall (fun z => cmp x z <> Gt) l -> insert_stable cmp x l = x :: l.
Proof.
  intros H. destruct l as [| y l]; [reflexivity |].
  cbn [insert_stable]. inversion H as [| ? ? Hy _]; subst.
  destruct (cmp x y); congruence.
Qed.

Lemma stable_sort_sorted_id (l : list A) :
  StronglySorted (fun a b => cmp a b <> Gt) l -> stable_sort cmp l = l.
Proof.
  induction 1 as [| x l Hl IH Hx]; [reflexivity |].
  cbn [stable_sort fold_right]. fold (stable_sort cmp l).
  rewrite IH. apply insert_stable_front. exact Hx.
Qed.

Lemma cmp_front (x y : A) (l : list A) :
  cmp x y <> Gt -> Forall (fun z => cmp y z <> Gt) l ->
  Forall (fun z => cmp x z <> Gt) (y :: l).
Proof.
  intros Hxy Hy. constructor; [exact Hxy |].
  eapply Forall_impl; [| exact Hy]. intros z Hz.
  apply cmp_trans with y; assumption.
Qed.

Lemma Forall_filter (P : A -> Prop) (p : A -> bool) (l : list A) :
  Forall P l -> Forall P (filter p l).
Proof.
  rewrite !Forall_forall. intros H z Hz. apply H.
  apply filter_In in Hz. tauto.
Qed.

Lemma filter_insert_stable (p : A -> bool) (x : A) (l : list A) :
  StronglySorted (fun a b => cmp a b <> Gt) l ->
  filter p (insert_stable cmp x l)
  = if p x then insert_stable cmp x (filter p l) else filter p l.
Proof.
  induction 1 as [| y l Hl IH Hy]; cbn [insert_stable].
  - cbn [filter]. destruct (p x); reflexivity.
  - assert (Front : cmp x y <> Gt ->
                    filter p (x :: y :: l)
                    = if p x then insert_stable cmp x (filter p (y :: l))
                      else filter p (y :: l)).
    { intros Hxy. change (filter p (x :: y :: l))
        with (if p x then x :: filter p (y :: l) else filter p (y :: l)).
      destruct (p x); [| reflexivity].
      symmetry. apply insert_stable_front, Forall_filter, cmp_front; assumption. }
    destruct (cmp x y) eqn:Hxy.
    + apply Front. congruence.
    + apply Front. congruence.
    + cbn [filter]. rewrite IH.
      destruct (p y), (p x); cbn [insert_stable]; rewrite ?Hxy; reflexivity.
Qed.

Lemma filter_stable_sort (p : A -> bool) (l : list A) :
  filter p (stable_sort cmp l) = stable_sort cmp (filter p l).
Proof.
  induction l as [| x l IH]; [reflexivity |].
  cbn [stable_sort fold_right filter]. fold (stable_sort cmp l).
  rewrite filter_insert_stable by (apply stable_sort_sorted; assumption).
  rewrite IH. destruct (p x); reflexivity.
Qed.

Lemma stable_sort_idempotent (l : list A) :
  stable_sort cmp (stable_sort cmp l) = stable_sort cmp l.
Proof.
  apply stable_sort_sorted_id. apply stable_sort_sorted; assumption.
Qed.
End SortAndFilter.

Lemma filter_map_comm {A B : Type} (f : A -> B) (p : B -> bool) (l : list A) :
  filter p (map f l) = map f (filter (fun x => p (f x)) l).
Proof.
  induction l as [| x l IH]; [reflexivity |].
  cbn [map filter]. rewrite IH. destruct (p (f x)); reflexivity.
Qed.

(** X8: filtering the ranked frame gives the ranking of the listings that
    pass the filters, so what the dashboard shows is in rank order; and
    ranking a ranked frame changes nothing. *)
Theorem filter_then_rank (selected_hoods : list string) (min_score : float)
    (re_filter : bool) (min_cap_rate : float) (processed_data : list ScoredListing) :
  let ranked df := map select_columns (stable_sort compare_rows df) in
  df_filtered selected_hoods min_score re_filter min_cap_rate (ranked processed_data)
  = ranked
      (filter (fun r => row_qualifies selected_hoods min_score re_filter min_cap_rate
                          (select_columns r))
         processed_data) /\
  stable_sort compare_rows (stable_sort compare_rows processed_data)
  = stable_sort compare_rows processed_data.
Proof.
  cbv zeta. split.
  - rewrite df_filtered_filter, filter_map_comm.
    rewrite (filter_stable_sort compare_rows compare_rows_flip compare_rows_trans).
    reflexivity.
  - apply (stable_sort_idempotent compare_rows compare_rows_flip compare_rows_trans).
Qed.
